(** * Bug tracker: entity service, derived views and error boundary

    A shallow embedding of the bug tracker's client-side derived views
    (src/client/src/index.jsx, components/BugStats.jsx,
    components/BugForm.jsx), of its error boundary
    (src/client/src/ErrorBoundary.jsx) and of the REST controller
    (src/server/src/controllers/bugController.js), with the properties
    the specification states about them.

    JavaScript strings are modelled by [string], one [ascii] per code
    unit: the strings covered are those of code units below 256, the
    Latin-1 range of Unicode.  Arrays are modelled by [list],
    array lengths by [nat], plain objects used as records of named
    fields by [gmap string _], and the numbers produced by [/], [*] and
    [Math.round] by Rocq's primitive binary64 floats, which are the
    IEEE 754 doubles of JavaScript. *)

From Stdlib Require Import ZArith Ascii String List Bool Lia Floats Uint63.
From stdpp Require Import base list gmap strings.

Local Open Scope string_scope.
Local Open Scope list_scope.

(** ** JavaScript primitives used by the sources *)

Module Js.

(** The code units below 256 that [toLowerCase] changes: the capitals
    A to Z (65 to 90) and the capitals of Latin-1, U+00C0 to U+00DE
    (192 to 222) but the multiplication sign U+00D7 (215). *)
Definition isCapital (c : ascii) : bool :=
  let n := nat_of_ascii c in
  ((65 <=? n)%nat && (n <=? 90)%nat) ||
  ((192 <=? n)%nat && (n <=? 222)%nat && negb (n =? 215)%nat).

(** [c.toLowerCase()] on one code unit below 256: a capital gives its
    small letter, 32 code units further; nothing else changes (the sharp
    s, 223, and the y with diaeresis, 255, are small letters).  Among
    these code units the mapping depends on no context. *)
Definition toLowerCase_char (c : ascii) : ascii :=
  if isCapital c then ascii_of_nat (nat_of_ascii c + 32) else c.

(** [s.toLowerCase()] *)
Fixpoint toLowerCase (s : string) : string :=
  match s with
  | EmptyString => EmptyString
  | String c s' => String (toLowerCase_char c) (toLowerCase s')
  end.

(** [s.startsWith(t)] *)
Fixpoint startsWith (s t : string) : bool :=
  match t, s with
  | EmptyString, _ => true
  | String _ _, EmptyString => false
  | String b t', String a s' => if Ascii.eqb a b then startsWith s' t' else false
  end.

(** [s.includes(t)]: [t] occurs in [s] at some position. *)
Fixpoint includes (s t : string) : bool :=
  startsWith s t ||
  match s with
  | EmptyString => false
  | String _ s' => includes s' t
  end.

(** [ToBoolean] on a string: only the empty string is falsy. *)
Definition truthy_string (s : string) : bool :=
  match s with
  | EmptyString => false
  | String _ _ => true
  end.

(** [ToBoolean] on a number: [+0], [-0] and [NaN] are falsy. *)
Definition truthy_number (n : float) : bool :=
  if PrimFloat.eqb n 0 then false else PrimFloat.eqb n n.

(** The number an array length or a count is. *)
Definition of_nat (n : nat) : float :=
  PrimFloat.of_uint63 (Uint63.of_Z (Z.of_nat n)).

(** [Math.round(x)]: the integer closest to [x], the larger one on a
    tie; [NaN], the infinities and the zeros are returned as they are,
    and a negative [x] that rounds to zero gives [-0]. *)
Definition Math_round (x : float) : float :=
  match Prim2SF x with
  | S754_finite s m e =>
      if (0 <=? e)%Z then x
      else
        let n := if s then Z.neg m else Z.pos m in
        let d := (2 ^ (- e))%Z in
        SF2Prim (binary_normalize prec emax ((2 * n + d) / (2 * d)) 0 s)
  | _ => x
  end.

(** The values a request body or a form holds under one key.  Objects
    are left out: no field handled here is one. *)
#[warnings="-register-all"]
Inductive Value :=
| VUndefined
| VNull
| VBool (b : bool)
| VNumber (n : float)
| VString (s : string)
| VDate (t : Z)
| VArray (items : list Value).

End Js.

(** ** The bug record (types/bug, as the components use it) *)

Inductive BugStatus := Open | InProgress | Resolved | Closed.
Inductive BugPriority := Low | Medium | High | Critical.

(** The string literal a status or a priority is in the source. *)
Definition status_literal (s : BugStatus) : string :=
  match s with
  | Open => "open"
  | InProgress => "in-progress"
  | Resolved => "resolved"
  | Closed => "closed"
  end.

Definition priority_literal (p : BugPriority) : string :=
  match p with
  | Low => "low"
  | Medium => "medium"
  | High => "high"
  | Critical => "critical"
  end.

Record Bug := mkBug {
  id : string;
  title : string;
  description : string;
  priority : BugPriority;
  status : BugStatus;
  assignee : string;
  reporter : string;
  environment : string;
  reproducible : bool;
  stepsToReproduce : option string;
  tags : list string;
  createdAt : Z;
  updatedAt : Z
}.

#[global] Instance BugStatus_eq_dec : EqDecision BugStatus.
Proof. solve_decision. Defined.

#[global] Instance BugPriority_eq_dec : EqDecision BugPriority.
Proof. solve_decision. Defined.

#[global] Instance Bug_eq_dec : EqDecision Bug.
Proof. solve_decision. Defined.

(** [a === b] on statuses and priorities: equality of the literals. *)
Definition status_eqb (a b : BugStatus) : bool :=
  String.eqb (status_literal a) (status_literal b).

Definition priority_eqb (a b : BugPriority) : bool :=
  String.eqb (priority_literal a) (priority_literal b).

(** ** index.jsx: the list filtered by criteria and search term *)

Module Index.

(** The criteria object ([BugFiltersType]): every option may be unset. *)
Record BugFilters := mkFilters {
  f_status : option BugStatus;
  f_priority : option BugPriority;
  f_assignee : option string;
  f_reproducible : option bool
}.

(** [{}]: no criterion set. *)
Definition noFilters : BugFilters := mkFilters None None None None.

Definition criterion {A} (eqb : A -> A -> bool) (c : option A) (x : A) : bool :=
  match c with
  | None => true
  | Some v => eqb x v
  end.

Definition satisfies (filters : BugFilters) (bug : Bug) : bool :=
  criterion status_eqb (f_status filters) (status bug) &&
  criterion priority_eqb (f_priority filters) (priority bug) &&
  criterion String.eqb (f_assignee filters) (assignee bug) &&
  criterion Bool.eqb (f_reproducible filters) (reproducible bug).

(** Modelled from the spec: [filterBugs] of the hook [useBugs]
    (hooks/useBugs is not among the sources).  It keeps, in input order,
    the bugs of the hook's collection that satisfy every set
    criterion. *)
Definition filterBugs (bugs : list Bug) (filters : BugFilters) : list Bug :=
  List.filter (satisfies filters) bugs.

(** The predicate of [result.filter(bug => ...)] in [filteredBugs]. *)
Definition matchesSearch (searchTerm : string) (bug : Bug) : bool :=
  Js.includes (Js.toLowerCase (title bug)) (Js.toLowerCase searchTerm) ||
  Js.includes (Js.toLowerCase (description bug)) (Js.toLowerCase searchTerm) ||
  Js.includes (Js.toLowerCase (assignee bug)) (Js.toLowerCase searchTerm) ||
  Js.includes (Js.toLowerCase (reporter bug)) (Js.toLowerCase searchTerm) ||
  existsb (fun tag => Js.includes (Js.toLowerCase tag) (Js.toLowerCase searchTerm))
          (tags bug).

(** The body of the [useMemo] that computes [filteredBugs], over the
    [filterBugs] the hook hands out. *)
Definition filteredBugsOver (filterBugs : BugFilters -> list Bug)
    (searchTerm : string) (filters : BugFilters) : list Bug :=
  let result := filterBugs filters in
  if Js.truthy_string searchTerm
  then List.filter (matchesSearch searchTerm) result
  else result.

(** [filteredBugs] of [Index], the hook holding the collection [bugs]. *)
Definition filteredBugs (bugs : list Bug) (searchTerm : string)
    (filters : BugFilters) : list Bug :=
  filteredBugsOver (filterBugs bugs) searchTerm filters.

(** [search(bugs, term)]: the view with no criterion set. *)
Definition search (bugs : list Bug) (term : string) : list Bug :=
  filteredBugs bugs term noFilters.

End Index.

(** ** components/BugStats.jsx: the aggregate counts *)

Module BugStats.

Record Stats := mkStats {
  total : nat;
  open : nat;
  inProgress : nat;
  resolved : nat;
  closed : nat;
  critical : nat;
  high : nat;
  medium : nat;
  low : nat;
  resolvedPercentage : float
}.

(** The body of the [useMemo] of [BugStats]. *)
Definition computeStats (bugs : list Bug) : Stats :=
  let total := length bugs in
  let open := length (List.filter (fun bug => status_eqb (status bug) Open) bugs) in
  let inProgress :=
    length (List.filter (fun bug => status_eqb (status bug) InProgress) bugs) in
  let resolved :=
    length (List.filter (fun bug => status_eqb (status bug) Resolved) bugs) in
  let closed := length (List.filter (fun bug => status_eqb (status bug) Closed) bugs) in
  let critical :=
    length (List.filter (fun bug => priority_eqb (priority bug) Critical) bugs) in
  let high := length (List.filter (fun bug => priority_eqb (priority bug) High) bugs) in
  let medium :=
    length (List.filter (fun bug => priority_eqb (priority bug) Medium) bugs) in
  let low := length (List.filter (fun bug => priority_eqb (priority bug) Low) bugs) in
  let resolvedPercentage :=
    if (0 <? total)%nat
    then Js.Math_round
           (PrimFloat.mul (PrimFloat.div (Js.of_nat resolved) (Js.of_nat total)) 100%float)
    else 0%float in
  mkStats total open inProgress resolved closed critical high medium low
          resolvedPercentage.

End BugStats.

(** ** components/BugForm.jsx: the zod schema guarding every submission *)

Module BugForm.
Import Js.

Inductive IssueCode := invalid_type | too_small | too_big | invalid_enum_value.

Inductive PathItem := Key (k : string) | Idx (i : nat).

Record ZodIssue := mkIssue {
  code : IssueCode;
  path : list PathItem;
  message : string
}.

#[global] Instance IssueCode_eq_dec : EqDecision IssueCode.
Proof. solve_decision. Defined.

#[global] Instance PathItem_eq_dec : EqDecision PathItem.
Proof. solve_decision. Defined.

(** What [schema.safeParse] returns: the parsed data, or every issue
    found. *)
Inductive ParseResult (T : Type) :=
| ParseOk (data : T)
| ParseErr (issues : list ZodIssue).

Arguments ParseOk {T} data.
Arguments ParseErr {T} issues.

Definition issuesOf {T} (r : ParseResult T) : list ZodIssue :=
  match r with
  | ParseOk _ => []
  | ParseErr issues => issues
  end.

(** The name zod prints for a rejected value ([getParsedType]): that of
    [typeof], but [nan] for the number that is not one, and [null],
    [date] and [array] among the objects. *)
Definition receivedType (v : Value) : string :=
  match v with
  | VUndefined => "undefined"
  | VNull => "null"
  | VBool _ => "boolean"
  | VNumber n => if PrimFloat.eqb n n then "number" else "nan"
  | VString _ => "string"
  | VDate _ => "date"
  | VArray _ => "array"
  end.

(** The issue zod raises for a value of the wrong type. *)
Definition typeIssue (expected : string) (p : list PathItem) (v : Value) : ZodIssue :=
  match v with
  | VUndefined => mkIssue invalid_type p "Required"
  | _ => mkIssue invalid_type p ("Expected " ++ expected ++ ", received " ++ receivedType v)
  end.

(** [.min(n, msg)] and [.max(n, msg)] of [z.string()]. *)
Definition min (n : nat) (msg : string) (s : string) : list (IssueCode * string) :=
  if (String.length s <? n)%nat then [(too_small, msg)] else [].

Definition max (n : nat) (msg : string) (s : string) : list (IssueCode * string) :=
  if (n <? String.length s)%nat then [(too_big, msg)] else [].

(** [z.string()] with its checks: every check runs, each adds its
    issue. *)
Definition z_string (checks : list (string -> list (IssueCode * string)))
    (p : list PathItem) (v : Value) : ParseResult string :=
  match v with
  | VString s =>
      match flat_map (fun check => check s) checks with
      | [] => ParseOk s
      | found => ParseErr (List.map (fun cm => mkIssue (fst cm) p (snd cm)) found)
      end
  | _ => ParseErr [typeIssue "string" p v]
  end.

Definition priority_of_literal (s : string) : option BugPriority :=
  List.find (fun p => String.eqb (priority_literal p) s) [Low; Medium; High; Critical].

(** [z.enum(['low', 'medium', 'high', 'critical'])] *)
Definition z_enum_priority (p : list PathItem) (v : Value) : ParseResult BugPriority :=
  match v with
  | VString s =>
      match priority_of_literal s with
      | Some prio => ParseOk prio
      | None =>
          ParseErr [mkIssue invalid_enum_value p
                      ("Invalid enum value. Expected 'low' | 'medium' | 'high' | 'critical', received '"
                         ++ s ++ "'")]
      end
  | _ => ParseErr [typeIssue "'low' | 'medium' | 'high' | 'critical'" p v]
  end.

(** [z.boolean()] *)
Definition z_boolean (p : list PathItem) (v : Value) : ParseResult bool :=
  match v with
  | VBool b => ParseOk b
  | _ => ParseErr [typeIssue "boolean" p v]
  end.

(** [schema.optional()] *)
Definition z_optional {T} (schema : list PathItem -> Value -> ParseResult T)
    (p : list PathItem) (v : Value) : ParseResult (option T) :=
  match v with
  | VUndefined => ParseOk None
  | _ =>
      match schema p v with
      | ParseOk data => ParseOk (Some data)
      | ParseErr issues => ParseErr issues
      end
  end.

(** The items of an array parsed one by one from index [i] on. *)
Fixpoint parseItems {T} (schema : list PathItem -> Value -> ParseResult T)
    (p : list PathItem) (i : nat) (items : list Value) : ParseResult (list T) :=
  match items with
  | [] => ParseOk []
  | v :: rest =>
      match schema (p ++ [Idx i]) v, parseItems schema p (S i) rest with
      | ParseOk x, ParseOk xs => ParseOk (x :: xs)
      | r, rs => ParseErr (issuesOf r ++ issuesOf rs)
      end
  end.

(** [z.array(schema)] *)
Definition z_array {T} (schema : list PathItem -> Value -> ParseResult T)
    (p : list PathItem) (v : Value) : ParseResult (list T) :=
  match v with
  | VArray items => parseItems schema p 0 items
  | _ => ParseErr [typeIssue "array" p v]
  end.

(** [schema.default(d)]: an absent value is replaced by [d]. *)
Definition z_default {T} (schema : list PathItem -> Value -> ParseResult T)
    (d : Value) (p : list PathItem) (v : Value) : ParseResult T :=
  match v with
  | VUndefined => schema p d
  | _ => schema p v
  end.

(** What the form hands to [onSubmit] ([BugFormData]). *)
Record BugFormData := mkFormData {
  title : string;
  description : string;
  priority : BugPriority;
  assignee : string;
  reporter : string;
  environment : string;
  reproducible : bool;
  stepsToReproduce : option string;
  tags : list string
}.

(** [obj[k]] of a plain object: [undefined] for an absent key. *)
Definition get (obj : gmap string Value) (k : string) : Value :=
  default VUndefined (obj !! k).

(** The schemas of the keys of [bugFormSchema], in the order of the
    object literal. *)
Definition titleSchema :=
  z_string [min 1 "Title is required"; max 100 "Title must be less than 100 characters"].
Definition descriptionSchema :=
  z_string [min 10 "Description must be at least 10 characters";
            max 1000 "Description must be less than 1000 characters"].
Definition assigneeSchema := z_string [min 1 "Assignee is required"].
Definition reporterSchema := z_string [min 1 "Reporter is required"].
Definition environmentSchema := z_string [min 1 "Environment is required"].
Definition stepsToReproduceSchema := z_optional (z_string []).
Definition tagsSchema := z_default (z_array (z_string [])) (VArray []).

(** [bugFormSchema.safeParse(values)]: [z.object] parses every key and
    gathers the issues of all of them. *)
Definition bugFormSchema (values : gmap string Value) : ParseResult BugFormData :=
  let r_title := titleSchema [Key "title"] (get values "title") in
  let r_description := descriptionSchema [Key "description"] (get values "description") in
  let r_priority := z_enum_priority [Key "priority"] (get values "priority") in
  let r_assignee := assigneeSchema [Key "assignee"] (get values "assignee") in
  let r_reporter := reporterSchema [Key "reporter"] (get values "reporter") in
  let r_environment := environmentSchema [Key "environment"] (get values "environment") in
  let r_reproducible := z_boolean [Key "reproducible"] (get values "reproducible") in
  let r_steps :=
    stepsToReproduceSchema [Key "stepsToReproduce"] (get values "stepsToReproduce") in
  let r_tags := tagsSchema [Key "tags"] (get values "tags") in
  match r_title, r_description, r_priority, r_assignee, r_reporter, r_environment,
        r_reproducible, r_steps, r_tags with
  | ParseOk t, ParseOk d, ParseOk p, ParseOk a, ParseOk r, ParseOk e,
    ParseOk b, ParseOk s, ParseOk g => ParseOk (mkFormData t d p a r e b s g)
  | _, _, _, _, _, _, _, _, _ =>
      ParseErr (issuesOf r_title ++ issuesOf r_description ++ issuesOf r_priority ++
                issuesOf r_assignee ++ issuesOf r_reporter ++ issuesOf r_environment ++
                issuesOf r_reproducible ++ issuesOf r_steps ++ issuesOf r_tags)
  end.

(** [zodResolver]: the errors object keeps, for each path, the first
    issue raised on it. *)
Fixpoint toFieldErrors (seen : list (list PathItem)) (issues : list ZodIssue)
    : list ZodIssue :=
  match issues with
  | [] => []
  | issue :: rest =>
      if bool_decide (path issue ∈ seen)
      then toFieldErrors seen rest
      else issue :: toFieldErrors (path issue :: seen) rest
  end.

(** The outcome of pressing submit: [onSubmit] runs on the parsed data,
    or the field errors are shown and [onSubmit] is not called. *)
Inductive SubmitResult (R : Type) :=
| Submitted (r : R)
| ValidationError (errors : list ZodIssue).

Arguments Submitted {R} r.
Arguments ValidationError {R} errors.

(** [form.handleSubmit(handleSubmit)] with [zodResolver(bugFormSchema)]. *)
Definition handleSubmit {R} (onSubmit : BugFormData -> R)
    (values : gmap string Value) : SubmitResult R :=
  match bugFormSchema values with
  | ParseOk data => Submitted (onSubmit data)
  | ParseErr issues => ValidationError (toFieldErrors [] issues)
  end.

End BugForm.

(** ** ErrorBoundary.jsx *)

Module ErrorBoundary.

(** What a component may render ([ReactNode]). *)
#[warnings="-register-all"]
Inductive ReactNode :=
| RUndefined
| RNull
| RBool (b : bool)
| RNumber (n : float)
| RString (s : string)
| RElement (name : string) (content : list ReactNode).

(** [ToBoolean] on a node: [undefined], [null], [false], the zeros,
    [NaN] and the empty string are falsy. *)
Definition truthy (n : ReactNode) : bool :=
  match n with
  | RUndefined | RNull => false
  | RBool b => b
  | RNumber x => Js.truthy_number x
  | RString s => Js.truthy_string s
  | RElement _ _ => true
  end.

Record Error := mkError { message : string }.
Record ErrorInfo := mkErrorInfo { componentStack : string }.

(** [fallback?: ReactNode]: an absent fallback reads [undefined]. *)
Record Props := mkProps {
  children : ReactNode;
  fallback : ReactNode
}.

Record State := mkState {
  hasError : bool;
  error : option Error;
  errorInfo : option ErrorInfo
}.

(** A partial state, as [setState] and [getDerivedStateFromError] take
    it: a key is absent ([None]) or carries its new value, which for
    [error] and [errorInfo] may be [undefined] ([Some None]). *)
Record StateUpdate := mkUpdate {
  u_hasError : option bool;
  u_error : option (option Error);
  u_errorInfo : option (option ErrorInfo)
}.

(** React merges a partial state into the current one key by key. *)
Definition setState (u : StateUpdate) (st : State) : State :=
  mkState (default (hasError st) (u_hasError u))
          (default (error st) (u_error u))
          (default (errorInfo st) (u_errorInfo u)).

(** [constructor]: [this.state = { hasError: false }] *)
Definition initialState : State := mkState false None None.

(** [static getDerivedStateFromError(error)] *)
Definition getDerivedStateFromError (e : Error) : StateUpdate :=
  mkUpdate (Some true) (Some (Some e)) None.

(** [componentDidCatch(error, errorInfo)], the logging left out. *)
Definition componentDidCatch (e : Error) (info : ErrorInfo) (st : State) : State :=
  setState (mkUpdate None (Some (Some e)) (Some (Some info))) st.

(** The state after a child has thrown [e]: React applies
    [getDerivedStateFromError] and then calls [componentDidCatch]. *)
Definition catchError (e : Error) (info : ErrorInfo) (st : State) : State :=
  componentDidCatch e info (setState (getDerivedStateFromError e) st).

(** [handleRetry] *)
Definition handleRetry (st : State) : State :=
  setState (mkUpdate (Some false) (Some None) (Some None)) st.

(** The details block of the card:
    [NODE_ENV === 'development' && this.state.error && (<div>...</div>)]. *)
Definition errorDetails (development : bool) (st : State) : ReactNode :=
  if development then
    match error st with
    | None => RUndefined
    | Some e =>
        RElement "div"
          [RElement "p" [RString "Error Details:"];
           RElement "pre" [RString (message e)];
           match errorInfo st with
           | None => RUndefined
           | Some info => RElement "pre" [RString (componentStack info)]
           end]
    end
  else RBool false.

(** The default error card. *)
Definition errorCard (development : bool) (st : State) : ReactNode :=
  RElement "div"
    [RElement "Card"
       [RElement "CardHeader"
          [RElement "div" [RElement "AlertTriangle" []];
           RElement "CardTitle" [RString "Something went wrong"];
           RElement "CardDescription"
             [RString "An unexpected error occurred. This has been logged for investigation."]];
        RElement "CardContent"
          [errorDetails development st;
           RElement "Button" [RElement "RefreshCw" []; RString "Try Again"]]]].

(** [render()] *)
Definition render (development : bool) (props : Props) (st : State) : ReactNode :=
  if hasError st then
    if truthy (fallback props) then fallback props
    else errorCard development st
  else children props.

End ErrorBoundary.

(** ** bugController.js: the REST handlers over the bug collection *)

Module Server.
Import Js.

(** Why a query or a save is rejected: [req.params.id] is no ObjectId,
    the schema of the model rejects some paths of the document, or the
    collection already holds a document with the [_id] of the new one
    (the error E11000 of the unique index on [_id]). *)
Inductive QueryError :=
| CastError (value : string)
| ValidationError (paths : list string)
| DuplicateKeyError.

(** Modelled from the spec: the schema of the [Bug] model (models/Bug.js
    is not among the sources) and so what an update does to a stored
    record: the fields of the patch are merged onto it, [updatedAt] is
    set to the time of the update, and [createdAt] is never changed. *)
Definition applyPatch (now : Z) (patch doc : gmap string Value) : gmap string Value :=
  <["updatedAt" := VDate now]> (delete "createdAt" patch ∪ doc).

(** Modelled from the spec: an update whose patch is valid is applied
    as it is. *)
Definition validPatch (patch : gmap string Value) : QueryError + gmap string Value :=
  inr patch.

(** Modelled from the spec: what the [Bug] model makes of a request body
    that it saves (models/Bug.js is not among the sources): the fields
    of the body, the status [open], and the time of the creation as
    [createdAt] and [updatedAt]. *)
Definition newDocument (now : Z) (reqBody : gmap string Value) : gmap string Value :=
  <["createdAt" := VDate now]>
    (<["updatedAt" := VDate now]> (<["status" := VString "open"]> reqBody)).

Section Collection.

(** The ObjectIds under which the collection behind the [Bug] model
    keeps its documents. *)
Context {ObjectId : Type} `{Countable ObjectId}.

(** The cast mongoose applies to the [id] of a request before it
    queries by [_id]: the ObjectId the string denotes, and nothing when
    it denotes none; [findByIdAndUpdate] and [findByIdAndDelete] are
    then rejected with a [CastError]. *)
Variable castObjectId : string -> option ObjectId.

(** What the [Bug] model decides (models/Bug.js is not among the
    sources): the paths of a document that its schema rejects when the
    document is saved, none when it is valid; the document that
    [new Bug(req.body)] is when it is saved at a time; the cast of the
    values of an update to the types of the schema, which gives the
    update to apply or the error of a value that cannot be cast; and the
    document that an update makes of a stored one at a time. *)
Variable schemaErrors : gmap string Value -> list string.
Variable construct : Z -> gmap string Value -> gmap string Value.
Variable castUpdate : gmap string Value -> QueryError + gmap string Value.
Variable applyUpdate : Z -> gmap string Value -> gmap string Value -> gmap string Value.

(** What [res.json] is given. *)
Inductive Body :=
| BodyNull
| BodyDoc (_id : ObjectId) (fields : gmap string Value)
| BodyDocs (docs : list (ObjectId * gmap string Value))
| BodyMessage (message : string).

(** The response a handler sends; [res.json] alone answers 200. *)
Record Response := mkResponse {
  statusCode : nat;
  body : Body
}.

(** How the call of a handler ends: it has sent a response, or the
    promise it awaits was rejected; the handlers catch nothing, so they
    then send no response at all. *)
Inductive Outcome :=
| Responded (response : Response)
| Rejected (error : QueryError).

(** The body of [res.json(doc)] for what a query resolves to: a
    document, with its [_id], or [null]. *)
Definition jsonOf (found : option (ObjectId * gmap string Value)) : Body :=
  match found with
  | None => BodyNull
  | Some (_id, fields) => BodyDoc _id fields
  end.

(** The collection: the stored documents by [_id], each one its fields
    by name. *)

(** [Bug.find()] *)
Definition find (db : gmap ObjectId (gmap string Value))
    : list (ObjectId * gmap string Value) :=
  map_to_list db.

(** [Bug.findByIdAndDelete(id)]: removes the document if there is one
    and resolves to it, or to [null]; rejected when [id] is no
    ObjectId. *)
Definition findByIdAndDelete (id : string) (db : gmap ObjectId (gmap string Value))
    : gmap ObjectId (gmap string Value) *
      (QueryError + option (ObjectId * gmap string Value)) :=
  match castObjectId id with
  | None => (db, inl (CastError id))
  | Some _id => (delete _id db, inr (pair _id <$> db !! _id))
  end.

(** [Bug.findByIdAndUpdate(id, update, { new: true })]: resolves to the
    updated document, or to [null] when no document has that id;
    rejected when [id] is no ObjectId or a value of the update cannot be
    cast, before the collection is queried. *)
Definition findByIdAndUpdate (now : Z) (id : string) (update : gmap string Value)
    (db : gmap ObjectId (gmap string Value))
    : gmap ObjectId (gmap string Value) *
      (QueryError + option (ObjectId * gmap string Value)) :=
  match castObjectId id with
  | None => (db, inl (CastError id))
  | Some _id =>
      match castUpdate update with
      | inl error => (db, inl error)
      | inr update' =>
          match db !! _id with
          | None => (db, inr None)
          | Some doc =>
              let doc' := applyUpdate now update' doc in
              (<[_id := doc']> db, inr (Some (_id, doc')))
          end
      end
  end.

(** [bug.save()] of a new document, [_id] being its ObjectId (a new one
    that the driver generates, unless the request body names one): the
    document is validated against the schema and then inserted, which
    the collection refuses when it holds a document with that [_id]. *)
Definition save (_id : ObjectId) (bug : gmap string Value)
    (db : gmap ObjectId (gmap string Value))
    : gmap ObjectId (gmap string Value) * (QueryError + unit) :=
  match schemaErrors bug with
  | [] =>
      match db !! _id with
      | None => (<[_id := bug]> db, inr tt)
      | Some _ => (db, inl DuplicateKeyError)
      end
  | paths => (db, inl (ValidationError paths))
  end.

(** [getBugs] *)
Definition getBugs (db : gmap ObjectId (gmap string Value))
    : gmap ObjectId (gmap string Value) * Response :=
  (db, mkResponse 200 (BodyDocs (find db))).

(** [createBug]: the document made of [req.body] is saved and sent with
    status 201; the body is not looked at before, and a rejected save is
    not caught. *)
Definition createBug (now : Z) (_id : ObjectId) (reqBody : gmap string Value)
    (db : gmap ObjectId (gmap string Value))
    : gmap ObjectId (gmap string Value) * Outcome :=
  let bug := construct now reqBody in
  match save _id bug db with
  | (db', inl error) => (db', Rejected error)
  | (db', inr _) => (db', Responded (mkResponse 201 (BodyDoc _id bug)))
  end.

(** [updateBug]: [req.params.id] and [req.body] are passed on, the
    result is sent as it comes; a rejected query is not caught. *)
Definition updateBug (now : Z) (id : string) (reqBody : gmap string Value)
    (db : gmap ObjectId (gmap string Value))
    : gmap ObjectId (gmap string Value) * Outcome :=
  match findByIdAndUpdate now id reqBody db with
  | (db', inl error) => (db', Rejected error)
  | (db', inr bug) => (db', Responded (mkResponse 200 (jsonOf bug)))
  end.

(** [deleteBug]: the result of the query is dropped; a rejected query is
    not caught. *)
Definition deleteBug (id : string) (db : gmap ObjectId (gmap string Value))
    : gmap ObjectId (gmap string Value) * Outcome :=
  match findByIdAndDelete id db with
  | (db', inl error) => (db', Rejected error)
  | (db', inr _) => (db', Responded (mkResponse 200 (BodyMessage "Bug deleted")))
  end.

(** The status the API layer gives a [NotFoundError]. *)
Definition isNotFound (r : Response) : bool := (statusCode r =? 404)%nat.

(** The status the API layer gives a validation error. *)
Definition isBadRequest (r : Response) : bool := (statusCode r =? 400)%nat.

End Collection.

(** Modelled from the spec: [updateBug] over the update that the
    specification describes, a valid patch merged onto the record. *)
Definition updateBugAsSpecified {ObjectId : Type} `{Countable ObjectId}
    (castObjectId : string -> option ObjectId) (now : Z) (id : string)
    (reqBody : gmap string Value) (db : gmap ObjectId (gmap string Value))
    : gmap ObjectId (gmap string Value) * Outcome :=
  updateBug castObjectId validPatch applyPatch now id reqBody db.

End Server.

(** ** The specification's notions, in its own words *)

Module Spec.

(** An upper-case letter among the code units below 256: A to Z, and
    the capitals U+00C0 to U+00DE of Latin-1 (the sign U+00D7 in their
    middle is no letter).  Its small letter is 32 code units further. *)
Definition isUpper (c : ascii) : Prop :=
  (65 <= nat_of_ascii c <= 90)%nat ∨
  ((192 <= nat_of_ascii c <= 222)%nat ∧ nat_of_ascii c ≠ 215).

(** Two code units are the same letter, whatever their case. *)
Definition sameLetter (a b : ascii) : Prop :=
  a = b ∨
  (isUpper a ∧ nat_of_ascii b = nat_of_ascii a + 32) ∨
  (isUpper b ∧ nat_of_ascii a = nat_of_ascii b + 32).

(** Two strings are equal up to the case of their letters. *)
Inductive equalIgnoringCase : string -> string -> Prop :=
| eic_empty : equalIgnoringCase "" ""
| eic_String (a b : ascii) (s t : string) :
    sameLetter a b -> equalIgnoringCase s t ->
    equalIgnoringCase (String a s) (String b t).

(** [term] is a case-insensitive substring of [s]. *)
Definition caseInsensitiveSubstring (term s : string) : Prop :=
  ∃ pre mid post, s = pre +:+ mid +:+ post ∧ equalIgnoringCase mid term.

(** The search predicate: the term occurs in the title, the
    description, the assignee, the reporter or at least one tag. *)
Definition matchesTerm (term : string) (bug : Bug) : Prop :=
  caseInsensitiveSubstring term (title bug) ∨
  caseInsensitiveSubstring term (description bug) ∨
  caseInsensitiveSubstring term (assignee bug) ∨
  caseInsensitiveSubstring term (reporter bug) ∨
  ∃ tag, In tag (tags bug) ∧ caseInsensitiveSubstring term tag.

(** [t] is a substring of [s]. *)
Definition substring (t s : string) : Prop := ∃ pre post, s = pre +:+ t +:+ post.

(** The search predicate with both sides put in lower case by [lower]:
    the lower-cased term is a substring of the lower-cased title,
    description, assignee, reporter or tag. *)
Definition matchesLowerCased (lower : string -> string) (term : string) (bug : Bug) : Prop :=
  substring (lower term) (lower (title bug)) ∨
  substring (lower term) (lower (description bug)) ∨
  substring (lower term) (lower (assignee bug)) ∨
  substring (lower term) (lower (reporter bug)) ∨
  ∃ tag, In tag (tags bug) ∧ substring (lower term) (lower tag).

(** Unicode's full case folding of one code unit below 256: a capital
    folds to its small letter and the sharp s (223) to [ss]; nothing
    else changes (the micro sign, 181, folds to a letter beyond 255 to
    which no other code unit below 256 folds, and is left as it is). *)
Definition caseFold_char (c : ascii) : string :=
  let n := nat_of_ascii c in
  if (n =? 223)%nat then "ss"
  else if ((65 <=? n)%nat && (n <=? 90)%nat) ||
          ((192 <=? n)%nat && (n <=? 222)%nat && negb (n =? 215)%nat)
       then String (ascii_of_nat (n + 32)) ""
       else String c "".

Fixpoint caseFold (s : string) : string :=
  match s with
  | EmptyString => EmptyString
  | String c s' => caseFold_char c +:+ caseFold s'
  end.

(** [term] is a substring of [s] up to case folding: some part of [s]
    and [term] fold to the same string.  This relation also takes the
    sharp s for a double s. *)
Definition substringUnderCaseFolding (term s : string) : Prop :=
  ∃ pre mid post, s = pre +:+ mid +:+ post ∧ caseFold mid = caseFold term.

(** The search predicate, read up to case folding. *)
Definition matchesTermUnderCaseFolding (term : string) (bug : Bug) : Prop :=
  substringUnderCaseFolding term (title bug) ∨
  substringUnderCaseFolding term (description bug) ∨
  substringUnderCaseFolding term (assignee bug) ∨
  substringUnderCaseFolding term (reporter bug) ∨
  ∃ tag, In tag (tags bug) ∧ substringUnderCaseFolding term tag.

(** A bug meets the criteria: every criterion that is set is matched
    exactly; one that is unset asks nothing. *)
Definition meetsCriteria (criteria : Index.BugFilters) (bug : Bug) : Prop :=
  (∀ s, Index.f_status criteria = Some s -> status bug = s) ∧
  (∀ p, Index.f_priority criteria = Some p -> priority bug = p) ∧
  (∀ a, Index.f_assignee criteria = Some a -> assignee bug = a) ∧
  (∀ r, Index.f_reproducible criteria = Some r -> reproducible bug = r).

(** A term made of white space only (possibly of nothing). *)
Definition whitespaceOnly (term : string) : Prop :=
  ∀ c, In c (list_ascii_of_string term) ->
       c = " "%char ∨ nat_of_ascii c = 9 ∨ nat_of_ascii c = 10 ∨ nat_of_ascii c = 13.

(** How many bugs of the collection have a status, a priority. *)
Definition withStatus (s : BugStatus) (bugs : list Bug) : nat :=
  count_occ BugStatus_eq_dec (List.map status bugs) s.

Definition withPriority (p : BugPriority) (bugs : list Bug) : nat :=
  count_occ BugPriority_eq_dec (List.map priority bugs) p.

(** [k] is a whole number nearest to the percentage [100 * part / whole]:
    the two differ by at most one half. *)
Definition nearestPercentage (k part whole : Z) : Prop :=
  (Z.abs (200 * part - 2 * whole * k) <= whole)%Z.

(** The field constraints of a creation input. *)
Definition stringOfLength (lo hi : nat) (v : Js.Value) : bool :=
  match v with
  | Js.VString s => (lo <=? String.length s)%nat && (String.length s <=? hi)%nat
  | _ => false
  end.

Definition nonEmptyString (v : Js.Value) : bool :=
  match v with
  | Js.VString s => negb (String.eqb s "")
  | _ => false
  end.

Definition priorityValue (v : Js.Value) : bool :=
  match v with
  | Js.VString s =>
      existsb (String.eqb s) ["low"; "medium"; "high"; "critical"]
  | _ => false
  end.

(** The input violates the constraint of [field]: the title must have
    1 to 100 characters, the description 10 to 1000, the priority must
    be one of the four, and assignee, reporter and environment must not
    be empty. *)
Definition violates (values : gmap string Js.Value) (field : string) : Prop :=
  (field = "title" ∧ stringOfLength 1 100 (BugForm.get values "title") = false) ∨
  (field = "description" ∧
   stringOfLength 10 1000 (BugForm.get values "description") = false) ∨
  (field = "priority" ∧ priorityValue (BugForm.get values "priority") = false) ∨
  (field = "assignee" ∧ nonEmptyString (BugForm.get values "assignee") = false) ∨
  (field = "reporter" ∧ nonEmptyString (BugForm.get values "reporter") = false) ∨
  (field = "environment" ∧ nonEmptyString (BugForm.get values "environment") = false).

End Spec.

(** ** Rounding, as Rocq's specification of binary64 writes it *)

(** The digits shifted out of a mantissa were not all zero. *)
Definition inexact (mrs : shr_record) : bool := shr_r mrs || shr_s mrs.

(** The float of sign [s] with mantissa [m] and exponent [e], zero for
    the mantissa 0. *)
Definition SFofZ (s : bool) (m e : Z) : spec_float :=
  match m with
  | Z0 => S754_zero s
  | Zpos p => S754_finite s p e
  | Zneg _ => S754_nan
  end.

(** [mrs'] is [mrs] shifted right by [n] digits. *)
Definition shifted (n : Z) (mrs mrs' : shr_record) : Prop :=
  (shr_m mrs' = shr_m mrs / 2 ^ n)%Z /\
  (inexact mrs' = false <-> inexact mrs = false /\ (shr_m mrs mod 2 ^ n = 0)%Z).

(** ** Sample data *)

Module Sample.

(** Bug A of the specification's scenarios. *)
Definition bugA : Bug :=
  mkBug "64b7f0c2a1d3e4f5a6b7c8d9" "Crash on save"
        "App crashes when saving a document over 10MB"
        Critical Open "Alice" "Bob" "Chrome 120" false None []
        1700000000000 1700000000000.

Definition bugB : Bug :=
  mkBug "64b7f0c2a1d3e4f5a6b7c8da" "Login button misaligned"
        "The login button overlaps the footer on small screens"
        Low Resolved "Carol" "Alice" "Firefox 121" true None ["ui"; "css"]
        1700000100000 1700000200000.

(** A bug whose title holds a sharp s (code unit 223). *)
Definition bugStrasse : Bug :=
  mkBug "64b7f0c2a1d3e4f5a6b7c8db" ("Stra" +:+ String "223" "e")
        "Street names are cut off in the address form"
        Medium Open "Carol" "Bob" "Safari 17" true None []
        1700000400000 1700000400000.

(** A bug whose title holds capitals of Latin-1: CAFE with an acute
    accent on the E (code unit 201). *)
Definition bugCafe : Bug :=
  mkBug "64b7f0c2a1d3e4f5a6b7c8dc" ("CAF" +:+ String "201" " menu unreadable")
        "The menu of the cafe page cannot be read in dark mode"
        Low Open "Alice" "Carol" "Chrome 120" true None []
        1700000500000 1700000500000.

(** A digit of a hexadecimal numeral. *)
Definition isHexDigit (c : ascii) : bool :=
  let n := nat_of_ascii c in
  ((48 <=? n)%nat && (n <=? 57)%nat) ||
  ((65 <=? n)%nat && (n <=? 70)%nat) ||
  ((97 <=? n)%nat && (n <=? 102)%nat).

(** A cast to ObjectId that takes the 24 hexadecimal digits of one, in
    either case, the ObjectId being written with small letters. *)
Definition castHex (id : string) : option string :=
  if (String.length id =? 24)%nat && forallb isHexDigit (list_ascii_of_string id)
  then Some (Js.toLowerCase id)
  else None.

(** A schema of the [Bug] model under which a document with a title
    alone is saved, as the test of the API expects of
    [{ title: 'Test Bug' }]. *)
Definition titleRequired (bug : gmap string Js.Value) : list string :=
  match bug !! "title" with
  | Some (Js.VString _) => []
  | _ => ["title"]
  end.

(** The body the test of the API posts. *)
Definition testBody : gmap string Js.Value := {[ "title" := Js.VString "Test Bug" ]}.

(** The handlers over these: ids of 24 hexadecimal digits, the schema
    of the test, and the documents and updates of the specification. *)
Definition createBug (now : Z) (_id : string) (reqBody : gmap string Js.Value)
    (db : gmap string (gmap string Js.Value)) :=
  Server.createBug titleRequired Server.newDocument now _id reqBody db.

Definition updateBug (now : Z) (id : string) (reqBody : gmap string Js.Value)
    (db : gmap string (gmap string Js.Value)) :=
  Server.updateBugAsSpecified castHex now id reqBody db.

Definition deleteBug (id : string) (db : gmap string (gmap string Js.Value)) :=
  Server.deleteBug castHex id db.

(** A collection of three bugs, two of them resolved. *)
Definition threeBugs : list Bug := [bugA; bugB; bugB].

(** The stored document of bug A. *)
Definition docA : gmap string Js.Value :=
  <["title" := Js.VString "Crash on save"]>
  (<["status" := Js.VString "open"]>
  (<["createdAt" := Js.VDate 1700000000000]>
  (<["updatedAt" := Js.VDate 1700000000000]> ∅))).

Definition idA : string := "64b7f0c2a1d3e4f5a6b7c8d9".

(** The values of a form whose title, description, assignee, reporter
    and environment all violate their constraints. *)
Definition badForm : gmap string Js.Value :=
  <["title" := Js.VString ""]>
  (<["description" := Js.VString "too short"]>
  (<["priority" := Js.VString "medium"]>
  (<["assignee" := Js.VString ""]>
  (<["reporter" := Js.VString ""]>
  (<["environment" := Js.VString ""]>
  (<["reproducible" := Js.VBool false]>
  (<["stepsToReproduce" := Js.VString ""]>
  (<["tags" := Js.VArray []]> ∅)))))))).

(** The values of the form that reports bug A. *)
Definition formA : gmap string Js.Value :=
  <["title" := Js.VString "Crash on save"]>
  (<["description" := Js.VString "App crashes when saving a document over 10MB"]>
  (<["priority" := Js.VString "critical"]>
  (<["assignee" := Js.VString "Alice"]>
  (<["reporter" := Js.VString "Bob"]>
  (<["environment" := Js.VString "Chrome 120"]>
  (<["reproducible" := Js.VBool false]> ∅)))))).

End Sample.

(** ** More of the sources: the tag editor and the defaults of BugForm.jsx,
    the handlers and the list view of index.jsx, the life of the error
    boundary *)

Module JsString.

(** White space and line terminators among the code units up to 255:
    TAB, LF, VT, FF, CR, SP and NBSP. *)
Definition isWhiteSpace (c : ascii) : bool :=
  let n := nat_of_ascii c in
  ((9 <=? n)%nat && (n <=? 13)%nat) || (n =? 32)%nat || (n =? 160)%nat.

(** [s.trimStart()] *)
Fixpoint trimStart (s : string) : string :=
  match s with
  | EmptyString => EmptyString
  | String c s' => if isWhiteSpace c then trimStart s' else s
  end.

(** [s.trimEnd()] *)
Fixpoint trimEnd (s : string) : string :=
  match s with
  | EmptyString => EmptyString
  | String c s' =>
      match trimEnd s' with
      | EmptyString => if isWhiteSpace c then EmptyString else String c EmptyString
      | String d t => String c (String d t)
      end
  end.

(** [s.trim()] *)
Definition trim (s : string) : string := trimEnd (trimStart s).

(** [array.includes(x)] on an array of strings. *)
Definition includes (xs : list string) (x : string) : bool :=
  existsb (fun y => String.eqb y x) xs.

End JsString.

Module BugFormState.
Import Js.

(** What the tag editor of the form works on: the text of the tag input
    ([tagInput]) and the [tags] value of the form. *)
Record TagState := mkTagState {
  tagInput : string;
  tags : list string
}.

(** [addTag] *)
Definition addTag (st : TagState) : TagState :=
  if Js.truthy_string (JsString.trim (tagInput st)) &&
     negb (JsString.includes (tags st) (JsString.trim (tagInput st)))
  then mkTagState "" (tags st ++ [JsString.trim (tagInput st)])
  else st.

(** [removeTag(tagToRemove)] *)
Definition removeTag (tagToRemove : string) (st : TagState) : TagState :=
  mkTagState (tagInput st)
             (List.filter (fun tag => negb (String.eqb tag tagToRemove)) (tags st)).

(** What the user does in the tag editor: type into the input
    ([setTagInput]), press Add or Enter, click the cross of a tag. *)
Inductive TagAction :=
| TypeTag (text : string)
| PressAdd
| ClickRemove (tag : string).

Definition act (a : TagAction) (st : TagState) : TagState :=
  match a with
  | TypeTag text => mkTagState text (tags st)
  | PressAdd => addTag st
  | ClickRemove tag => removeTag tag st
  end.

Definition run (actions : list TagAction) (st : TagState) : TagState :=
  fold_left (fun s a => act a s) actions st.

(** The keys of the object literal given to [z.object] in
    [bugFormSchema]. *)
Definition schemaKeys : list string :=
  ["title"; "description"; "priority"; "assignee"; "reporter"; "environment";
   "reproducible"; "stepsToReproduce"; "tags"].

(** [initialData?: Partial<Bug>], the fields the form reads. *)
Record PartialBug := mkPartialBug {
  p_title : option string;
  p_description : option string;
  p_priority : option BugPriority;
  p_assignee : option string;
  p_reporter : option string;
  p_environment : option string;
  p_reproducible : option bool;
  p_stepsToReproduce : option string;
  p_tags : option (list string)
}.

(** [initialData?.field ?? fallback] *)
Definition orDefault {A} (initialData : option PartialBug)
    (field : PartialBug -> option A) (fallback : A) : A :=
  match initialData with
  | None => fallback
  | Some data => default fallback (field data)
  end.

(** The [defaultValues] handed to [useForm]. *)
Definition defaultValues (initialData : option PartialBug) : gmap string Value :=
  <["title" := VString (orDefault initialData p_title "")]>
  (<["description" := VString (orDefault initialData p_description "")]>
  (<["priority" := VString (priority_literal (orDefault initialData p_priority Medium))]>
  (<["assignee" := VString (orDefault initialData p_assignee "")]>
  (<["reporter" := VString (orDefault initialData p_reporter "")]>
  (<["environment" := VString (orDefault initialData p_environment "")]>
  (<["reproducible" := VBool (orDefault initialData p_reproducible false)]>
  (<["stepsToReproduce" := VString (orDefault initialData p_stepsToReproduce "")]>
  (<["tags" := VArray (List.map VString (orDefault initialData p_tags []))]> ∅)))))))).

End BugFormState.

Module IndexPage.

(** The state [Index] keeps with [useState]. *)
Record State := mkState {
  searchTerm : string;
  filters : Index.BugFilters;
  isFormOpen : bool;
  editingBug : option Bug
}.

Definition initialState : State := mkState "" Index.noFilters false None.

(** What [updateBug] of the hook is handed as its second argument: the
    data of the form, or [{ status }]. *)
Inductive Patch :=
| PatchForm (data : BugForm.BugFormData)
| PatchStatus (status : BugStatus).

(** The calls made to the functions of the hook [useBugs]. *)
Inductive HookCall :=
| CreateBug (data : BugForm.BugFormData)
| UpdateBug (id : string) (patch : Patch)
| DeleteBug (id : string).

(** A handler makes calls to the hook and leaves a state.  An awaited
    call may reject, and then the rest of the handler does not run:
    [resolves] tells whether the awaited call resolves. *)

(** [handleCreateBug] *)
Definition handleCreateBug (data : BugForm.BugFormData) (resolves : bool)
    (st : State) : list HookCall * State :=
  ([CreateBug data],
   if resolves
   then mkState (searchTerm st) (filters st) false (editingBug st)
   else st).

(** [handleUpdateBug] *)
Definition handleUpdateBug (data : BugForm.BugFormData) (resolves : bool)
    (st : State) : list HookCall * State :=
  match editingBug st with
  | Some bug =>
      ([UpdateBug (id bug) (PatchForm data)],
       if resolves
       then mkState (searchTerm st) (filters st) (isFormOpen st) None
       else st)
  | None => ([], st)
  end.

(** [handleStatusChange] *)
Definition handleStatusChange (bugId : string) (status : BugStatus)
    (st : State) : list HookCall * State :=
  ([UpdateBug bugId (PatchStatus status)], st).

(** [handleEditBug] *)
Definition handleEditBug (bug : Bug) (st : State) : list HookCall * State :=
  ([], mkState (searchTerm st) (filters st) (isFormOpen st) (Some bug)).

(** [handleDeleteBug] *)
Definition handleDeleteBug (bugId : string) (st : State) : list HookCall * State :=
  ([DeleteBug bugId], st).

(** [clearFilters] *)
Definition clearFilters (st : State) : State :=
  mkState "" Index.noFilters (isFormOpen st) (editingBug st).

(** [filters[key]] is truthy, for the keys of the criteria object. *)
Definition truthyFilters (f : Index.BugFilters) : bool :=
  match Index.f_status f with
  | Some s => Js.truthy_string (status_literal s)
  | None => false
  end ||
  match Index.f_priority f with
  | Some p => Js.truthy_string (priority_literal p)
  | None => false
  end ||
  match Index.f_assignee f with
  | Some a => Js.truthy_string a
  | None => false
  end ||
  match Index.f_reproducible f with
  | Some r => r
  | None => false
  end.

(** Whether the Clear button is rendered:
    [searchTerm || Object.keys(filters).some(key => filters[key])]. *)
Definition showClear (st : State) : bool :=
  Js.truthy_string (searchTerm st) || truthyFilters (filters st).

(** What the bug list tab shows under the search bar. *)
Inductive ListView :=
| Skeletons (n : nat)
| EmptyMessage (heading hint : string)
| Cards (keys : list string) (bugs : list Bug).

(** The conditional of the "Bug List" section. *)
Definition bugList (loading : bool) (bugs filteredBugs : list Bug) : ListView :=
  if loading then Skeletons 3
  else if (length filteredBugs =? 0)%nat
  then EmptyMessage
         (if (length bugs =? 0)%nat
          then "No bugs reported yet" else "No bugs match your search")
         (if (length bugs =? 0)%nat
          then "Get started by reporting your first bug"
          else "Try adjusting your search terms or filters")
  else Cards (List.map id filteredBugs) filteredBugs.

End IndexPage.

Module ErrorBoundaryLife.
Import ErrorBoundary.

(** What happens to a mounted boundary: React derives the state from an
    error thrown below it, later reports the error with its component
    stack, and the user presses "Try Again". *)
Inductive Event :=
| Derive (e : Error)
| DidCatch (e : Error) (info : ErrorInfo)
| Retry.

Definition step (ev : Event) (st : State) : State :=
  match ev with
  | Derive e => setState (getDerivedStateFromError e) st
  | DidCatch e info => componentDidCatch e info st
  | Retry => handleRetry st
  end.

Definition run (events : list Event) (st : State) : State :=
  fold_left (fun s ev => step ev s) events st.

End ErrorBoundaryLife.

(** * Properties *)

(** ** Strings *)

Section StringFacts.

Lemma append_String (c : ascii) (s t : string) : String c s +:+ t = String c (s +:+ t).
Proof. reflexivity. Qed.

Lemma append_assoc (s t u : string) : (s +:+ t) +:+ u = s +:+ t +:+ u.
Proof. induction s as [|c s IH]; [done | by rewrite !append_String, IH]. Qed.

Lemma startsWith_spec (s t : string) :
  Js.startsWith s t = true ↔ ∃ post, s = t +:+ post.
Proof.
  revert s. induction t as [|b t IH]; intros s.
  - split; [intros _; by exists s | by destruct s].
  - destruct s as [|a s]; simpl.
    + split; [done | intros [post H]; discriminate].
    + setoid_rewrite append_String.
      destruct (Ascii.eqb_spec a b) as [->|Hne].
      * rewrite IH. split; intros [post H]; exists post; congruence.
      * split; [done | intros [post H]; congruence].
Qed.

Lemma includes_nil (t : string) : Js.includes "" t = Js.startsWith "" t.
Proof. unfold Js.includes. apply orb_false_r. Qed.

Lemma includes_String (a : ascii) (s t : string) :
  Js.includes (String a s) t = Js.startsWith (String a s) t || Js.includes s t.
Proof. reflexivity. Qed.

Lemma includes_spec (s t : string) :
  Js.includes s t = true ↔ ∃ pre post, s = pre +:+ t +:+ post.
Proof.
  induction s as [|a s IH].
  - rewrite includes_nil, startsWith_spec. split.
    + intros [post H]. by exists "", post.
    + intros [pre [post H]]. destruct pre; [by exists post | discriminate].
  - rewrite includes_String, orb_true_iff, startsWith_spec, IH. split.
    + intros [[post H] | [pre [post H]]].
      * by exists "", post.
      * exists (String a pre), post. rewrite append_String. by rewrite H.
    + intros [pre [post H]]. destruct pre as [|c pre].
      * left. by exists post.
      * right. exists pre, post. rewrite append_String in H. congruence.
Qed.

Lemma includes_empty (s : string) : Js.includes s "" = true.
Proof. apply includes_spec. by exists "", s. Qed.

Lemma isCapital_spec (c : ascii) : Js.isCapital c = true ↔ Spec.isUpper c.
Proof.
  unfold Js.isCapital, Spec.isUpper. cbv zeta.
  rewrite orb_true_iff, !andb_true_iff, negb_true_iff, !Nat.leb_le, Nat.eqb_neq. tauto.
Qed.

Lemma toLowerCase_char_same (a b : ascii) :
  Js.toLowerCase_char a = Js.toLowerCase_char b ↔ Spec.sameLetter a b.
Proof.
  unfold Js.toLowerCase_char, Spec.sameLetter.
  pose proof (nat_ascii_bounded a) as Ba. pose proof (nat_ascii_bounded b) as Bb.
  pose proof (ascii_nat_embedding a) as Ea. pose proof (ascii_nat_embedding b) as Eb.
  assert (Hinj : nat_of_ascii a = nat_of_ascii b -> a = b) by congruence.
  pose proof (isCapital_spec a) as Ua. pose proof (isCapital_spec b) as Ub.
  unfold Spec.isUpper in *.
  destruct (Js.isCapital a); destruct (Js.isCapital b).
  - assert (Ha : (65 <= nat_of_ascii a <= 90)%nat ∨
                 ((192 <= nat_of_ascii a <= 222)%nat ∧ nat_of_ascii a ≠ 215)) by tauto.
    assert (Hb : (65 <= nat_of_ascii b <= 90)%nat ∨
                 ((192 <= nat_of_ascii b <= 222)%nat ∧ nat_of_ascii b ≠ 215)) by tauto.
    split.
    + intros H. apply (f_equal nat_of_ascii) in H.
      rewrite !nat_ascii_embedding in H by lia. left. apply Hinj. lia.
    + intros [-> | [[_ H] | [_ H]]]; [done | lia | lia].
  - assert (Ha : (65 <= nat_of_ascii a <= 90)%nat ∨
                 ((192 <= nat_of_ascii a <= 222)%nat ∧ nat_of_ascii a ≠ 215)) by tauto.
    assert (Hb : ¬ ((65 <= nat_of_ascii b <= 90)%nat ∨
                 ((192 <= nat_of_ascii b <= 222)%nat ∧ nat_of_ascii b ≠ 215)))
      by (intros Hb; apply Ub in Hb; discriminate).
    split.
    + intros H. apply (f_equal nat_of_ascii) in H.
      rewrite nat_ascii_embedding in H by lia. right; left. split; [done | lia].
    + intros [-> | [[_ H] | [H _]]]; [tauto | | tauto].
      rewrite <- H. apply Eb.
  - assert (Ha : ¬ ((65 <= nat_of_ascii a <= 90)%nat ∨
                 ((192 <= nat_of_ascii a <= 222)%nat ∧ nat_of_ascii a ≠ 215)))
      by (intros Ha; apply Ua in Ha; discriminate).
    assert (Hb : (65 <= nat_of_ascii b <= 90)%nat ∨
                 ((192 <= nat_of_ascii b <= 222)%nat ∧ nat_of_ascii b ≠ 215)) by tauto.
    split.
    + intros H. apply (f_equal nat_of_ascii) in H.
      rewrite nat_ascii_embedding in H by lia. right; right. split; [done | lia].
    + intros [-> | [[H _] | [_ H]]]; [tauto | tauto | ].
      rewrite <- H. symmetry. apply Ea.
  - assert (Ha : ¬ ((65 <= nat_of_ascii a <= 90)%nat ∨
                 ((192 <= nat_of_ascii a <= 222)%nat ∧ nat_of_ascii a ≠ 215)))
      by (intros Ha; apply Ua in Ha; discriminate).
    assert (Hb : ¬ ((65 <= nat_of_ascii b <= 90)%nat ∨
                 ((192 <= nat_of_ascii b <= 222)%nat ∧ nat_of_ascii b ≠ 215)))
      by (intros Hb; apply Ub in Hb; discriminate).
    split; [by left |].
    intros [-> | [[H _] | [H _]]]; [done | tauto | tauto].
Qed.

Lemma toLowerCase_equal (s t : string) :
  Js.toLowerCase s = Js.toLowerCase t ↔ Spec.equalIgnoringCase s t.
Proof.
  split.
  - revert t. induction s as [|a s IH]; intros [|b t] H; simpl in H; try discriminate.
    + constructor.
    + injection H as Hc Hs. constructor; [by apply toLowerCase_char_same | by apply IH].
  - induction 1 as [|a b s t Hc _ IH]; [done |].
    simpl. apply toLowerCase_char_same in Hc. by rewrite Hc, IH.
Qed.

Lemma toLowerCase_append (s t : string) :
  Js.toLowerCase (s +:+ t) = Js.toLowerCase s +:+ Js.toLowerCase t.
Proof. induction s as [|a s IH]; [done |]. rewrite append_String. simpl. by rewrite IH. Qed.

Lemma toLowerCase_append_inv (s x y : string) :
  Js.toLowerCase s = x +:+ y ->
  ∃ a b, s = a +:+ b ∧ Js.toLowerCase a = x ∧ Js.toLowerCase b = y.
Proof.
  revert s. induction x as [|c x IH]; intros s H.
  - by exists "", s.
  - destruct s as [|d s]; [discriminate |].
    rewrite append_String in H. simpl in H. injection H as Hc Hs.
    destruct (IH s Hs) as (a & b & -> & Ha & Hb).
    exists (String d a), b. rewrite append_String. simpl. by rewrite Hc, Ha.
Qed.

(** The test the source writes, [s.toLowerCase().includes(term.toLowerCase())],
    decides the case-insensitive substring relation. *)
Lemma includes_toLowerCase (s term : string) :
  Js.includes (Js.toLowerCase s) (Js.toLowerCase term) = true ↔
  Spec.caseInsensitiveSubstring term s.
Proof.
  rewrite includes_spec. unfold Spec.caseInsensitiveSubstring. split.
  - intros (pre & post & H).
    apply toLowerCase_append_inv in H as (a & r & -> & Ha & Hr).
    apply toLowerCase_append_inv in Hr as (m & p & -> & Hm & Hp).
    exists a, m, p. split; [done | by apply toLowerCase_equal].
  - intros (pre & mid & post & -> & H). apply toLowerCase_equal in H.
    exists (Js.toLowerCase pre), (Js.toLowerCase post).
    by rewrite !toLowerCase_append, H.
Qed.

(** Letters that differ in case only fold to the same string. *)
Lemma caseFold_char_same (a b : ascii) :
  Spec.sameLetter a b -> Spec.caseFold_char a = Spec.caseFold_char b.
Proof.
  assert (Hup : ∀ x y, Spec.isUpper x -> nat_of_ascii y = nat_of_ascii x + 32 ->
            Spec.caseFold_char x = Spec.caseFold_char y).
  { intros x y Hx Hy. unfold Spec.isUpper in Hx.
    pose proof (ascii_nat_embedding y) as Ey.
    unfold Spec.caseFold_char. cbv zeta.
    assert (Hx223 : (nat_of_ascii x =? 223)%nat = false) by (apply Nat.eqb_neq; lia).
    assert (Hy223 : (nat_of_ascii y =? 223)%nat = false) by (apply Nat.eqb_neq; lia).
    assert (Hxu : ((65 <=? nat_of_ascii x)%nat && (nat_of_ascii x <=? 90)%nat)
                  || ((192 <=? nat_of_ascii x)%nat && (nat_of_ascii x <=? 222)%nat
                      && negb (nat_of_ascii x =? 215)%nat) = true).
    { rewrite orb_true_iff, !andb_true_iff, negb_true_iff, !Nat.leb_le, Nat.eqb_neq. tauto. }
    assert (Hyu : ((65 <=? nat_of_ascii y)%nat && (nat_of_ascii y <=? 90)%nat)
                  || ((192 <=? nat_of_ascii y)%nat && (nat_of_ascii y <=? 222)%nat
                      && negb (nat_of_ascii y =? 215)%nat) = false).
    { rewrite orb_false_iff, !andb_false_iff, !Nat.leb_gt. lia. }
    rewrite Hx223, Hy223, Hxu, Hyu, <- Hy. by rewrite Ey. }
  intros [-> | [[Ha Hb] | [Hb Ha]]]; [done | by apply Hup | symmetry; by apply Hup].
Qed.

Lemma caseFold_equal (s t : string) :
  Spec.equalIgnoringCase s t -> Spec.caseFold s = Spec.caseFold t.
Proof.
  induction 1 as [|a b s t Hc _ IH]; [done |].
  simpl. by rewrite (caseFold_char_same a b Hc), IH.
Qed.

(** What matches letter by letter also matches up to case folding. *)
Lemma caseInsensitiveSubstring_folds (term s : string) :
  Spec.caseInsensitiveSubstring term s -> Spec.substringUnderCaseFolding term s.
Proof.
  intros (pre & mid & post & Hs & Heq). exists pre, mid, post.
  split; [done | by apply caseFold_equal].
Qed.

Lemma matchesTerm_folds (term : string) (bug : Bug) :
  Spec.matchesTerm term bug -> Spec.matchesTermUnderCaseFolding term bug.
Proof.
  unfold Spec.matchesTerm, Spec.matchesTermUnderCaseFolding.
  intros [H | [H | [H | [H | (tag & Hin & H)]]]];
    apply caseInsensitiveSubstring_folds in H.
  - by left.
  - by right; left.
  - by right; right; left.
  - by right; right; right; left.
  - right; right; right; right. by exists tag.
Qed.

End StringFacts.

(** ** index.jsx: filter and search *)

Section IndexFacts.

Lemma status_eqb_eq (a b : BugStatus) : status_eqb a b = true ↔ a = b.
Proof. destruct a, b; by vm_compute. Qed.

Lemma priority_eqb_eq (a b : BugPriority) : priority_eqb a b = true ↔ a = b.
Proof. destruct a, b; by vm_compute. Qed.

Lemma criterion_spec {A} (eqb : A -> A -> bool) (c : option A) (x : A) :
  (∀ a b, eqb a b = true ↔ a = b) ->
  Index.criterion eqb c x = true ↔ ∀ v, c = Some v -> x = v.
Proof.
  intros Heqb. destruct c as [v|]; simpl.
  - rewrite Heqb. split; [by intros -> ? [= ->] | by intros H; apply H].
  - split; [by intros _ ? [=] | done].
Qed.

Lemma satisfies_spec (filters : Index.BugFilters) (bug : Bug) :
  Index.satisfies filters bug = true ↔ Spec.meetsCriteria filters bug.
Proof.
  unfold Index.satisfies, Spec.meetsCriteria.
  rewrite !andb_true_iff.
  rewrite (criterion_spec status_eqb) by apply status_eqb_eq.
  rewrite (criterion_spec priority_eqb) by apply priority_eqb_eq.
  rewrite (criterion_spec String.eqb) by apply String.eqb_eq.
  rewrite (criterion_spec Bool.eqb) by apply Bool.eqb_true_iff.
  tauto.
Qed.

Lemma satisfies_noFilters (bug : Bug) : Index.satisfies Index.noFilters bug = true.
Proof. reflexivity. Qed.

Lemma matchesSearch_spec (term : string) (bug : Bug) :
  Index.matchesSearch term bug = true ↔ Spec.matchesTerm term bug.
Proof.
  unfold Index.matchesSearch, Spec.matchesTerm.
  rewrite !orb_true_iff, !includes_toLowerCase, existsb_exists.
  setoid_rewrite includes_toLowerCase. tauto.
Qed.

Lemma matchesSearch_empty (bug : Bug) : Index.matchesSearch "" bug = true.
Proof. unfold Index.matchesSearch. simpl Js.toLowerCase. by rewrite includes_empty. Qed.

Lemma filter_all {A} (f : A -> bool) (l : list A) :
  (∀ x, f x = true) -> List.filter f l = l.
Proof. intros H. induction l as [|x l IH]; simpl; [done | by rewrite H, IH]. Qed.

Lemma filter_filter {A} (f g : A -> bool) (l : list A) :
  List.filter g (List.filter f l) = List.filter (fun x => f x && g x) l.
Proof.
  induction l as [|x l IH]; simpl; [done |].
  destruct (f x); simpl; [destruct (g x); by rewrite IH | done].
Qed.

Lemma filter_sublist {A} (f : A -> bool) (l : list A) : List.filter f l `sublist_of` l.
Proof.
  induction l as [|x l IH]; simpl; [constructor |].
  destruct (f x); by constructor.
Qed.

(** A subsequence whose elements all pass the test is a subsequence of
    what the filter keeps. *)
Lemma sublist_filter_greatest {A} (f : A -> bool) (k l : list A) :
  k `sublist_of` l -> (∀ x, In x k -> f x = true) -> k `sublist_of` List.filter f l.
Proof.
  induction 1 as [|x k l _ IH|x k l _ IH]; intros Hk; simpl.
  - constructor.
  - rewrite (Hk x) by (by left). constructor. apply IH. intros y Hy. apply Hk. by right.
  - destruct (f x); [constructor |]; by apply IH.
Qed.

Lemma sublist_In {A} (k l : list A) (x : A) : k `sublist_of` l -> In x k -> In x l.
Proof.
  intros Hs Hx. apply list_elem_of_In.
  eapply elem_of_sublist; [by apply list_elem_of_In | done].
Qed.

Lemma sublist_count_occ {A} (dec : ∀ x y : A, {x = y} + {x ≠ y}) (k l : list A) (x : A) :
  k `sublist_of` l -> count_occ dec k x <= count_occ dec l x.
Proof.
  induction 1 as [|y k l _ IH|y k l _ IH]; simpl; [done | |];
    destruct (dec y x); lia.
Qed.

Lemma filteredBugs_unfold (bugs : list Bug) (term : string) (filters : Index.BugFilters) :
  Index.filteredBugs bugs term filters =
  List.filter (fun bug => Index.satisfies filters bug && Index.matchesSearch term bug) bugs.
Proof.
  unfold Index.filteredBugs, Index.filteredBugsOver, Index.filterBugs.
  destruct term as [|c term]; simpl Js.truthy_string; cbv iota.
  - apply filter_ext. intros bug. by rewrite matchesSearch_empty, andb_true_r.
  - apply filter_filter.
Qed.

(** Whatever subsequence of the collection the hook's [filterBugs]
    returns, the search step keeps a subsequence of it. *)
Lemma filteredBugsOver_sublist (filterBugs : Index.BugFilters -> list Bug)
    (bugs : list Bug) (term : string) (filters : Index.BugFilters) :
  filterBugs filters `sublist_of` bugs ->
  Index.filteredBugsOver filterBugs term filters `sublist_of` bugs.
Proof.
  intros H. unfold Index.filteredBugsOver.
  destruct (Js.truthy_string term); [| done].
  etrans; [apply filter_sublist | done].
Qed.

End IndexFacts.

Lemma matchesSearch_lowerCased (term : string) (bug : Bug) :
  Index.matchesSearch term bug = true ↔ Spec.matchesLowerCased Js.toLowerCase term bug.
Proof.
  unfold Index.matchesSearch, Spec.matchesLowerCased, Spec.substring.
  rewrite !orb_true_iff, existsb_exists, !includes_spec.
  setoid_rewrite includes_spec. tauto.
Qed.

Lemma search_filter_matches (bugs : list Bug) (term : string) :
  Index.search bugs term = List.filter (Index.matchesSearch term) bugs ∧
  (∀ bug, In bug (Index.search bugs term) ↔ In bug bugs ∧ Spec.matchesTerm term bug).
Proof.
  assert (Hs : Index.search bugs term = List.filter (Index.matchesSearch term) bugs).
  { unfold Index.search. rewrite filteredBugs_unfold. apply filter_ext.
    intros bug. by rewrite satisfies_noFilters. }
  split; [done |].
  intros bug. by rewrite Hs, filter_In, matchesSearch_spec.
Qed.

(** C5, as the code has it. For every collection, search term and
    criteria, over strings of code units below 256: the search predicate
    the source evaluates holds of a bug exactly when the term, in lower
    case, is a substring of the title, the description, the assignee,
    the reporter or a tag, in lower case, which is exactly when the term
    matches a part of one of them letter by letter, up to the case of
    each letter; [search]
    returns exactly the bugs of the collection with that property, in
    order; with criteria active the result consists of exactly the bugs
    that meet the criteria and the search predicate; and every bug
    returned matches the term up to case folding. *)
Theorem search_letter_by_letter_any_field
    (bugs : list Bug) (term : string) (filters : Index.BugFilters) :
  (∀ bug, Index.matchesSearch term bug = true ↔
          Spec.matchesLowerCased Js.toLowerCase term bug) ∧
  (∀ bug, Index.matchesSearch term bug = true ↔ Spec.matchesTerm term bug) ∧
  Index.search bugs term = List.filter (Index.matchesSearch term) bugs ∧
  (∀ bug, In bug (Index.search bugs term) ↔ In bug bugs ∧ Spec.matchesTerm term bug) ∧
  Index.filteredBugs bugs term filters =
    List.filter (fun bug => Index.satisfies filters bug && Index.matchesSearch term bug)
                bugs ∧
  (∀ bug, In bug (Index.filteredBugs bugs term filters) ↔
          In bug bugs ∧ Spec.meetsCriteria filters bug ∧ Spec.matchesTerm term bug) ∧
  (∀ bug, In bug (Index.search bugs term) ->
          In bug bugs ∧ Spec.matchesTermUnderCaseFolding term bug).
Proof.
  destruct (search_filter_matches bugs term) as [Hs Hin].
  split; [intros bug; apply matchesSearch_lowerCased |].
  split; [intros bug; apply matchesSearch_spec |].
  split; [done |].
  split; [done |].
  split; [apply filteredBugs_unfold |].
  split.
  - intros bug.
    by rewrite filteredBugs_unfold, filter_In, andb_true_iff, satisfies_spec,
      matchesSearch_spec.
  - intros bug Hb. apply Hin in Hb as [Hb Hm]. split; [done | by apply matchesTerm_folds].
Qed.

(** C5 fails where the two cases of a letter do not correspond one to
    one: the title Stra(sharp s)e and the term STRASSE are the same up
    to case (they fold to the same string, and STRASSE is how the title
    is written in capitals), yet the search for STRASSE does not return
    the bug.  Capitals of Latin-1 are matched: the search for caf(e
    acute) returns the bug whose title has CAF(E acute). *)
Lemma search_sharp_s_not_matched :
  Spec.caseFold (title Sample.bugStrasse) = "strasse" ∧
  Spec.caseFold "STRASSE" = "strasse" ∧
  Spec.matchesTermUnderCaseFolding "STRASSE" Sample.bugStrasse ∧
  Index.search [Sample.bugStrasse] "STRASSE" = [] ∧
  Index.search [Sample.bugStrasse] "strasse" = [] ∧
  Index.search [Sample.bugStrasse] "stra" = [Sample.bugStrasse] ∧
  Index.search [Sample.bugCafe] ("caf" +:+ String "233" "") = [Sample.bugCafe].
Proof.
  split; [reflexivity |]. split; [reflexivity |].
  split; [| repeat split].
  left. by exists "", (title Sample.bugStrasse), "".
Qed.

(** C6, as the code has it. The identity holds for the empty term, with
    or without criteria; a term of white space that is not empty is
    searched for like any other term. *)
Theorem search_empty_term_identity (bugs : list Bug) (filters : Index.BugFilters) :
  Index.search bugs "" = bugs ∧
  Index.filteredBugs bugs "" filters = Index.filterBugs bugs filters ∧
  (∀ term, Spec.whitespaceOnly term -> term ≠ "" ->
     Index.search bugs term = List.filter (Index.matchesSearch term) bugs ∧
     ∀ bug, In bug (Index.search bugs term) ↔ In bug bugs ∧ Spec.matchesTerm term bug).
Proof.
  split; [| split].
  - unfold Index.search, Index.filteredBugs, Index.filteredBugsOver, Index.filterBugs.
    simpl. apply filter_all, satisfies_noFilters.
  - reflexivity.
  - intros term _ _.
    destruct (search_filter_matches bugs term) as [H1 H2]. by split.
Qed.

(** C6 fails for a term of white space: searching bug A's one-element
    collection for two spaces returns nothing. *)
Lemma search_whitespace_term_drops_bugs :
  Spec.whitespaceOnly "  " ∧
  Index.search [Sample.bugA] "  " = [] ∧
  Index.search [Sample.bugA] "  " ≠ [Sample.bugA].
Proof.
  split; [| split].
  - intros c [<- | [<- | []]]; by left.
  - reflexivity.
  - discriminate.
Qed.

(** C7. With no criterion set [filterBugs] returns its input; for any
    criteria it returns a subsequence of the input, made of exactly the
    bugs that meet every set criterion, and the longest such: every
    subsequence of the input whose bugs all meet the criteria is a
    subsequence of the result. *)
Theorem filterBugs_identity_and_subsequence
    (bugs : list Bug) (filters : Index.BugFilters) :
  Index.filterBugs bugs Index.noFilters = bugs ∧
  Index.filterBugs bugs filters `sublist_of` bugs ∧
  (∀ bug, In bug (Index.filterBugs bugs filters) ↔
          In bug bugs ∧ Spec.meetsCriteria filters bug) ∧
  (∀ kept, kept `sublist_of` bugs ->
           (∀ bug, In bug kept -> Spec.meetsCriteria filters bug) ->
           kept `sublist_of` Index.filterBugs bugs filters).
Proof.
  unfold Index.filterBugs. split; [| split; [| split]].
  - apply filter_all, satisfies_noFilters.
  - apply filter_sublist.
  - intros bug. by rewrite filter_In, satisfies_spec.
  - intros kept Hsub Hall. apply sublist_filter_greatest; [done |].
    intros bug Hbug. by apply satisfies_spec, Hall.
Qed.

(** C9. The list the client shows is a subsequence of the collection:
    its bugs come from the collection, in the collection's order, and
    none occurs more often than it does there.  The search step alone
    already keeps this: it holds over any [filterBugs] that returns a
    subsequence of the collection. *)
Theorem filteredBugs_subsequence
    (bugs : list Bug) (term : string) (filters : Index.BugFilters) :
  Index.filteredBugs bugs term filters `sublist_of` bugs ∧
  (∀ bug, In bug (Index.filteredBugs bugs term filters) -> In bug bugs) ∧
  (∀ bug, count_occ Bug_eq_dec (Index.filteredBugs bugs term filters) bug
          <= count_occ Bug_eq_dec bugs bug) ∧
  (∀ filterBugs : Index.BugFilters -> list Bug,
     filterBugs filters `sublist_of` bugs ->
     Index.filteredBugsOver filterBugs term filters `sublist_of` bugs).
Proof.
  assert (H : Index.filteredBugs bugs term filters `sublist_of` bugs).
  { apply filteredBugsOver_sublist, filter_sublist. }
  split; [done | split; [| split]].
  - intros bug. by apply sublist_In.
  - intros bug. by apply sublist_count_occ.
  - intros filterBugs. apply filteredBugsOver_sublist.
Qed.

(** The search scenarios of the specification, on bug A. *)
Example search_scenarios :
  Index.search [Sample.bugA] "crash" = [Sample.bugA] ∧
  Index.search [Sample.bugA] "zzz" = [] ∧
  Index.search [Sample.bugA; Sample.bugB] "CSS" = [Sample.bugB].
Proof. repeat split. Qed.

(** ** Doubles *)

Section FloatFacts.
Local Open Scope Z_scope.

Lemma pow2_pos (n : Z) : 0 <= n -> 0 < 2 ^ n.
Proof. intros H. apply Z.pow_pos_nonneg; lia. Qed.

Lemma digits2_pos_size (p : positive) : digits2_pos p = Pos.size p.
Proof. induction p; simpl; congruence. Qed.

Lemma digits2_pos_bounds (p : positive) :
  2 ^ (Z.pos (digits2_pos p) - 1) <= Z.pos p < 2 ^ Z.pos (digits2_pos p).
Proof.
  rewrite digits2_pos_size.
  pose proof (Pos.size_gt p) as Hgt. pose proof (Pos.size_le p) as Hle.
  apply Pos2Z.pos_lt_pos in Hgt. apply Pos2Z.pos_le_pos in Hle.
  rewrite Pos2Z.inj_pow in Hgt, Hle.
  replace (Z.pos (Pos.size p)) with (Z.pos (Pos.size p) - 1 + 1) in Hle by lia.
  rewrite Z.pow_add_r in Hle by lia. change (2 ^ 1) with 2 in Hle. lia.
Qed.

Lemma Zdigits2_bounds (m : Z) :
  0 < m -> 2 ^ (Zdigits2 m - 1) <= m < 2 ^ Zdigits2 m.
Proof. destruct m as [|p|p]; try lia. intros _. apply digits2_pos_bounds. Qed.

Lemma Zdigits2_nonneg (m : Z) : 0 <= Zdigits2 m.
Proof. destruct m; simpl; lia. Qed.

(** A number below [2 ^ k] has at most [k] digits. *)
Lemma Zdigits2_le (m k : Z) : 0 <= m -> 0 <= k -> m < 2 ^ k -> Zdigits2 m <= k.
Proof.
  intros Hm Hk Hlt. destruct (Z.eq_dec m 0) as [-> | Hne]; [simpl; lia |].
  destruct (Zdigits2_bounds m) as [Hlo _]; [lia |].
  destruct (Z_le_gt_dec (Zdigits2 m) k) as [| Hgt]; [done |].
  assert (2 ^ k <= 2 ^ (Zdigits2 m - 1)) by (apply Z.pow_le_mono_r; lia). lia.
Qed.

(** A number from [2 ^ k] on has more than [k] digits. *)
Lemma Zdigits2_gt (m k : Z) : 0 <= k -> 2 ^ k <= m -> k < Zdigits2 m.
Proof.
  intros Hk Hle. pose proof (pow2_pos k Hk).
  destruct (Zdigits2_bounds m) as [_ Hhi]; [lia |].
  destruct (Z_lt_le_dec k (Zdigits2 m)) as [| Hge]; [done |].
  assert (2 ^ Zdigits2 m <= 2 ^ k) by (apply Z.pow_le_mono_r; lia). lia.
Qed.

Lemma shr_1_shifted (mrs : shr_record) : 0 <= shr_m mrs -> shifted 1 mrs (shr_1 mrs).
Proof.
  destruct mrs as [m r s]. unfold shifted, inexact. simpl shr_m. intros Hm.
  change (2 ^ 1) with 2.
  destruct m as [|[p|p|]|p]; try lia; cbn [shr_1 shr_m shr_r shr_s].
  - split; [done |]. change (0 mod 2) with 0. simpl. tauto.
  - assert (Hd : Z.pos p~1 / 2 = Z.pos p) by (symmetry; apply (Z.div_unique _ _ _ 1); lia).
    assert (Hr : Z.pos p~1 mod 2 = 1) by (symmetry; apply (Z.mod_unique _ _ (Z.pos p)); lia).
    rewrite Hd, Hr. split; [done |]. split; [discriminate | lia].
  - assert (Hd : Z.pos p~0 / 2 = Z.pos p) by (symmetry; apply (Z.div_unique _ _ _ 0); lia).
    assert (Hr : Z.pos p~0 mod 2 = 0) by (symmetry; apply (Z.mod_unique _ _ (Z.pos p)); lia).
    rewrite Hd, Hr. simpl. tauto.
  - split; [done |]. change (1 mod 2) with 1. split; [discriminate | lia].
Qed.

Lemma shifted_nonneg (n : Z) (mrs mrs' : shr_record) :
  0 <= n -> 0 <= shr_m mrs -> shifted n mrs mrs' -> 0 <= shr_m mrs'.
Proof.
  intros Hn Hm [-> _]. apply Z.div_pos; [done | by apply pow2_pos].
Qed.

Lemma shifted_trans (a b : Z) (x y z : shr_record) :
  0 <= a -> 0 <= b -> 0 <= shr_m x ->
  shifted a x y -> shifted b y z -> shifted (a + b) x z.
Proof.
  intros Ha Hb Hx [Hy Hyi] [Hz Hzi].
  pose proof (pow2_pos a Ha) as Pa. pose proof (pow2_pos b Hb) as Pb.
  unfold shifted. rewrite Z.pow_add_r by done. split.
  - rewrite Hz, Hy. apply Z.div_div; lia.
  - rewrite Hzi, Hyi, Hy, Z.rem_mul_r by lia.
    pose proof (Z.mod_pos_bound (shr_m x) (2 ^ a) Pa).
    pose proof (Z.mod_pos_bound (shr_m x / 2 ^ a) (2 ^ b) Pb).
    split; [intros [[? ?] ?]; split; [done | nia] | intros [? ?]; repeat split; [done | nia | nia]].
Qed.

Lemma iter_pos_shr_1 (p : positive) (mrs : shr_record) :
  0 <= shr_m mrs -> shifted (Z.pos p) mrs (SpecFloat.iter_pos shr_1 p mrs).
Proof.
  revert mrs. induction p as [p IH | p IH |]; intros mrs Hm; simpl SpecFloat.iter_pos.
  - pose proof (shr_1_shifted mrs Hm) as H1.
    assert (Hm1 : 0 <= shr_m (shr_1 mrs)).
    { apply (shifted_nonneg 1 mrs); [lia | done | done]. }
    pose proof (IH _ Hm1) as H2.
    assert (Hm2 : 0 <= shr_m (SpecFloat.iter_pos shr_1 p (shr_1 mrs))).
    { apply (shifted_nonneg (Z.pos p) (shr_1 mrs)); [lia | done | done]. }
    pose proof (IH _ Hm2) as H3.
    replace (Z.pos p~1) with (1 + Z.pos p + Z.pos p) by lia.
    eapply shifted_trans; [lia | lia | done | | exact H3].
    eapply shifted_trans; [lia | lia | done | exact H1 | exact H2].
  - pose proof (IH _ Hm) as H1.
    assert (Hm1 : 0 <= shr_m (SpecFloat.iter_pos shr_1 p mrs)).
    { apply (shifted_nonneg (Z.pos p) mrs); [lia | done | done]. }
    pose proof (IH _ Hm1) as H2.
    replace (Z.pos p~0) with (Z.pos p + Z.pos p) by lia.
    eapply shifted_trans; [lia | lia | done | exact H1 | exact H2].
  - by apply shr_1_shifted.
Qed.

(** [shr] by [n] digits: nothing happens for [n <= 0]. *)
Lemma shr_shifted (mrs : shr_record) (e n : Z) :
  0 <= shr_m mrs ->
  shifted (Z.max 0 n) mrs (fst (shr mrs e n)) /\ (snd (shr mrs e n) = e + Z.max 0 n).
Proof.
  intros Hm. destruct n as [|p|p]; simpl.
  - split; [| lia]. unfold shifted. rewrite Z.div_1_r, Z.mod_1_r. tauto.
  - split; [by apply iter_pos_shr_1 | lia].
  - split; [| lia]. unfold shifted. rewrite Z.div_1_r, Z.mod_1_r. tauto.
Qed.

Lemma inexact_shr_record_of_loc (m : Z) (l : location) :
  shr_m (shr_record_of_loc m l) = m ∧
  (inexact (shr_record_of_loc m l) = false <-> l = loc_Exact).
Proof. by destruct l as [|[| |]]. Qed.

Lemma loc_of_shr_record_exact (mrs : shr_record) :
  loc_of_shr_record mrs = loc_Exact <-> inexact mrs = false.
Proof. by destruct mrs as [m [|] [|]]. Qed.

Lemma round_nearest_even_bounds (m : Z) (l : location) :
  m <= round_nearest_even m l <= m + 1 /\ (l = loc_Exact -> round_nearest_even m l = m).
Proof. destruct l as [|[| |]]; simpl; try destruct (Z.even m); split; (lia || done). Qed.

Lemma fexp_binary64 (x : Z) : fexp prec emax x = Z.max (x - 53) (-1074).
Proof. reflexivity. Qed.

Lemma shr_fexp_shifted (m e : Z) (l : location) :
  0 <= m ->
  shifted (Z.max 0 (fexp prec emax (Zdigits2 m + e) - e)) (shr_record_of_loc m l)
          (fst (shr_fexp prec emax m e l)) ∧
  snd (shr_fexp prec emax m e l) = e + Z.max 0 (fexp prec emax (Zdigits2 m + e) - e).
Proof.
  intros Hm. unfold shr_fexp. apply shr_shifted.
  by rewrite (proj1 (inexact_shr_record_of_loc m l)).
Qed.

(** Where a mantissa below [2 ^ 53 * 2 ^ (- e)] is rounded to: an
    exponent that is still at most 0. *)
Lemma fexp_shift_nonpos (m e : Z) :
  0 <= m -> e <= 0 -> m < 2 ^ 53 * 2 ^ (- e) ->
  e + Z.max 0 (fexp prec emax (Zdigits2 m + e) - e) <= 0.
Proof.
  intros Hm He Hlt. rewrite <- Z.pow_add_r in Hlt by lia.
  pose proof (Zdigits2_le m (53 + - e) Hm ltac:(lia) Hlt).
  rewrite fexp_binary64. lia.
Qed.

Lemma pow2_split (e n : Z) :
  e + n <= 0 -> 0 <= n -> 2 ^ (- e) = 2 ^ (- (e + n)) * 2 ^ n.
Proof. intros H1 H2. rewrite <- Z.pow_add_r by lia. f_equal. lia. Qed.

(** Rounding to nearest of a value that is at most [K] gives at most
    [K], for [K] below [2 ^ 53]: the value is [mx * 2 ^ ex] when the
    location is exact and lies strictly between that and
    [(mx + 1) * 2 ^ ex] otherwise. *)
Lemma binary_round_aux_le (K : Z) (sx : bool) (mx ex : Z) (lx : location) :
  0 < K < 2 ^ 53 -> 0 <= mx -> ex <= 0 ->
  mx < K * 2 ^ (- ex) ∨ (mx = K * 2 ^ (- ex) ∧ lx = loc_Exact) ->
  match binary_round_aux prec emax sx mx ex lx with
  | S754_zero s => s = sx
  | S754_finite s m e => s = sx ∧ e <= 0 ∧ Z.pos m <= K * 2 ^ (- e)
  | _ => False
  end.
Proof.
  intros HK Hmx Hex Hval.
  pose proof (pow2_pos (- ex) ltac:(lia)) as Pex.
  assert (Hmx53 : mx < 2 ^ 53 * 2 ^ (- ex)) by nia.
  unfold binary_round_aux.
  destruct (shr_fexp_shifted mx ex lx Hmx) as [[Hm1 Hi1] He1].
  destruct (shr_fexp prec emax mx ex lx) as [mrs1 e1]. simpl fst in *. simpl snd in *.
  set (n1 := Z.max 0 (fexp prec emax (Zdigits2 mx + ex) - ex)) in *.
  assert (Hn1 : 0 <= n1) by lia.
  assert (He1' : e1 <= 0) by (rewrite He1; by apply fexp_shift_nonpos).
  pose proof (pow2_pos n1 Hn1) as P1. pose proof (pow2_pos (- e1) ltac:(lia)) as Pe1.
  assert (Hsplit : 2 ^ (- ex) = 2 ^ (- e1) * 2 ^ n1).
  { rewrite He1. apply pow2_split; lia. }
  rewrite (proj1 (inexact_shr_record_of_loc mx lx)) in Hm1, Hi1.
  rewrite (proj2 (inexact_shr_record_of_loc mx lx)) in Hi1.
  destruct (round_nearest_even_bounds (shr_m mrs1) (loc_of_shr_record mrs1)) as [Hr Hrx].
  set (r := round_nearest_even (shr_m mrs1) (loc_of_shr_record mrs1)) in *.
  assert (Hm1' : 0 <= shr_m mrs1) by (rewrite Hm1; apply Z.div_pos; lia).
  assert (Hrle : r <= K * 2 ^ (- e1)).
  { destruct Hval as [Hlt | [Heq ->]].
    - assert (shr_m mrs1 < K * 2 ^ (- e1)); [| lia].
      rewrite Hm1. apply Z.div_lt_upper_bound; [lia |]. rewrite Hsplit in Hlt. lia.
    - rewrite Hrx.
      + rewrite Hm1, Heq, Hsplit, Z.mul_assoc, Z.div_mul by lia. lia.
      + apply loc_of_shr_record_exact, Hi1. split; [done |].
        rewrite Heq, Hsplit, Z.mul_assoc. apply Z.mod_mul. lia. }
  assert (Hr0 : 0 <= r) by lia.
  destruct (shr_fexp_shifted r e1 loc_Exact Hr0) as [[Hm2 _] He2].
  destruct (shr_fexp prec emax r e1 loc_Exact) as [mrs2 e2]. simpl fst in *. simpl snd in *.
  set (n2 := Z.max 0 (fexp prec emax (Zdigits2 r + e1) - e1)) in *.
  assert (Hn2 : 0 <= n2) by lia.
  assert (He2' : e2 <= 0).
  { rewrite He2. apply fexp_shift_nonpos; [done | done | nia]. }
  pose proof (pow2_pos n2 Hn2) as P2. pose proof (pow2_pos (- e2) ltac:(lia)) as Pe2.
  assert (Hsplit2 : 2 ^ (- e1) = 2 ^ (- e2) * 2 ^ n2).
  { rewrite He2. apply pow2_split; lia. }
  rewrite (proj1 (inexact_shr_record_of_loc r loc_Exact)) in Hm2.
  assert (Hm2le : shr_m mrs2 <= K * 2 ^ (- e2)).
  { rewrite Hm2. apply Z.div_le_upper_bound; [lia |]. rewrite Hsplit2 in Hrle. lia. }
  assert (Hm2' : 0 <= shr_m mrs2) by (rewrite Hm2; apply Z.div_pos; lia).
  destruct (shr_m mrs2) as [|m2|m2]; [done | | lia].
  assert (Hemax : (e2 <=? emax - prec) = true).
  { apply Z.leb_le. change (emax - prec) with 971. lia. }
  rewrite Hemax. done.
Qed.


Lemma iter_xO_pow2 (p d : positive) : Z.pos (Pos.iter xO p d) = Z.pos p * 2 ^ Z.pos d.
Proof.
  induction d as [|d IH] using Pos.peano_ind.
  - simpl. lia.
  - rewrite Pos.iter_succ, Pos2Z.inj_xO, IH, Pos2Z.inj_succ, Z.pow_succ_r by lia. lia.
Qed.

(** A mantissa of 53 digits with an exponent in range is a float as it
    stands. *)
Lemma binary_round_aux_exact (s : bool) (m : positive) (e : Z) :
  2 ^ 52 <= Z.pos m < 2 ^ 53 -> -1074 <= e <= 971 ->
  binary_round_aux prec emax s (Z.pos m) e loc_Exact = S754_finite s m e.
Proof.
  intros Hm He.
  assert (Hd : Zdigits2 (Z.pos m) = 53).
  { pose proof (Zdigits2_le (Z.pos m) 53 ltac:(lia) ltac:(lia) ltac:(lia)).
    pose proof (Zdigits2_gt (Z.pos m) 52 ltac:(lia) ltac:(lia)). lia. }
  assert (Hs : shr_fexp prec emax (Z.pos m) e loc_Exact
               = (shr_record_of_loc (Z.pos m) loc_Exact, e)).
  { unfold shr_fexp. rewrite Hd, fexp_binary64.
    replace (Z.max (53 + e - 53) (-1074) - e) with 0 by lia. reflexivity. }
  unfold binary_round_aux. rewrite Hs. simpl shr_m. simpl loc_of_shr_record.
  simpl round_nearest_even. rewrite Hs. simpl shr_m.
  assert (Hemax : (e <=? emax - prec) = true).
  { apply Z.leb_le. change (emax - prec) with 971. lia. }
  by rewrite Hemax.
Qed.

(** The number of a positive count below [2 ^ 53] is the count: a
    mantissa of 53 digits and the exponent that scales it back. *)
Lemma Prim2SF_of_nat (n : nat) :
  0 < Z.of_nat n < 2 ^ 53 ->
  ∃ m e, Prim2SF (Js.of_nat n) = S754_finite false m e ∧
         e <= 0 ∧ Z.pos m = Z.of_nat n * 2 ^ (- e) ∧ 2 ^ 52 <= Z.pos m < 2 ^ 53.
Proof.
  intros Hn. unfold Js.of_nat. rewrite of_uint63_spec, Uint63.of_Z_spec.
  rewrite Z.mod_small by (change wB with (2 ^ 63); lia).
  destruct (Z.of_nat n) as [|p|p] eqn:Ep; try lia.
  unfold binary_normalize, binary_round, shl_align.
  rewrite fexp_binary64. pose proof (digits2_pos_bounds p) as Hd.
  set (d := Z.pos (digits2_pos p)) in *.
  assert (Hd53 : d <= 53).
  { destruct (Z_le_gt_dec d 53) as [| Hgt]; [done |].
    assert (2 ^ 53 <= 2 ^ (d - 1)) by (apply Z.pow_le_mono_r; lia). lia. }
  replace (Z.max (d + 0 - 53) (-1074)) with (d - 53) by lia.
  assert (Hpow : 2 ^ 52 = 2 ^ (d - 1) * 2 ^ (53 - d)).
  { rewrite <- Z.pow_add_r by lia. f_equal. lia. }
  assert (Hpow' : 2 ^ 53 = 2 ^ d * 2 ^ (53 - d)).
  { rewrite <- Z.pow_add_r by lia. f_equal. lia. }
  pose proof (pow2_pos (53 - d) ltac:(lia)) as P.
  destruct (d - 53 - 0) as [|q|q] eqn:Eq; try lia.
  - assert (d = 53) as Hd' by lia. rewrite Hd' in *.
    change (2 ^ (53 - 53)) with 1 in *.
    exists p, 0. rewrite binary_round_aux_exact by lia.
    change (2 ^ (- 0)) with 1. repeat split; lia.
  - assert (Hq : Z.pos q = 53 - d) by lia.
    assert (Hm : Z.pos (Pos.iter xO p q) = Z.pos p * 2 ^ (53 - d)).
    { by rewrite iter_xO_pow2, Hq. }
    exists (Pos.iter xO p q), (d - 53).
    rewrite binary_round_aux_exact by nia.
    replace (- (d - 53)) with (53 - d) by lia. repeat split; try lia; nia.
Qed.

Lemma Prim2SF_of_nat_0 : Prim2SF (Js.of_nat 0) = S754_zero false.
Proof. reflexivity. Qed.

Lemma new_location_exact (steps : Z) : new_location steps 0 = loc_Exact.
Proof. unfold new_location, new_location_even, new_location_odd. by destruct (Z.even steps). Qed.

(** The quotient of two floats of 53 digits, the first at most the
    second, is at most 1. *)
Lemma SFdiv_le_1 (mr mt : positive) (er et : Z) :
  2 ^ 52 <= Z.pos mr < 2 ^ 53 -> 2 ^ 52 <= Z.pos mt < 2 ^ 53 ->
  er <= 0 -> et <= 0 ->
  Z.pos mr * 2 ^ (- et) <= Z.pos mt * 2 ^ (- er) ->
  match SFdiv prec emax (S754_finite false mr er) (S754_finite false mt et) with
  | S754_zero s => s = false
  | S754_finite s m e => s = false ∧ e <= 0 ∧ Z.pos m <= 1 * 2 ^ (- e)
  | _ => False
  end.
Proof.
  intros Hmr Hmt Her Het Hle.
  pose proof (pow2_pos (- er) ltac:(lia)) as Per.
  pose proof (pow2_pos (- et) ltac:(lia)) as Pet.
  assert (Hexp : er <= et).
  { destruct (Z_le_gt_dec er et) as [| Hgt]; [done | exfalso].
    assert (Hs : 2 ^ (- et) = 2 ^ (- er) * 2 ^ (er - et)).
    { rewrite <- Z.pow_add_r by lia. f_equal. lia. }
    assert (2 ^ 1 <= 2 ^ (er - et)) by (apply Z.pow_le_mono_r; lia).
    change (2 ^ 1) with 2 in *. change (2 ^ 53) with (2 * 2 ^ 52) in *. nia. }
  assert (Hd1 : Zdigits2 (Z.pos mr) = 53).
  { pose proof (Zdigits2_le (Z.pos mr) 53 ltac:(lia) ltac:(lia) ltac:(lia)).
    pose proof (Zdigits2_gt (Z.pos mr) 52 ltac:(lia) ltac:(lia)). lia. }
  assert (Hd2 : Zdigits2 (Z.pos mt) = 53).
  { pose proof (Zdigits2_le (Z.pos mt) 53 ltac:(lia) ltac:(lia) ltac:(lia)).
    pose proof (Zdigits2_gt (Z.pos mt) 52 ltac:(lia) ltac:(lia)). lia. }
  unfold SFdiv, SFdiv_core_binary. rewrite Hd1, Hd2, fexp_binary64.
  set (e' := Z.min (Z.max (53 + er - (53 + et) - 53) (-1074)) (er - et)).
  assert (He' : e' <= 0) by lia.
  set (s := er - et - e'). assert (Hs : 0 <= s) by lia.
  set (m' := match s with Z.pos _ => Z.shiftl (Z.pos mr) s | 0 => Z.pos mr | Z.neg _ => 0 end).
  assert (Hm' : m' = Z.pos mr * 2 ^ s).
  { unfold m'. destruct s as [|p|p] eqn:Es; [simpl; lia | | lia].
    by rewrite Z.shiftl_mul_pow2. }
  pose proof (pow2_pos s Hs) as Ps. pose proof (pow2_pos (- e') ltac:(lia)) as Pe'.
  assert (Hbound : m' <= 2 ^ (- e') * Z.pos mt).
  { assert (H1 : 2 ^ (- e') = 2 ^ s * 2 ^ (et - er)).
    { rewrite <- Z.pow_add_r by lia. f_equal. lia. }
    assert (H2 : 2 ^ (- er) = 2 ^ (- et) * 2 ^ (et - er)).
    { rewrite <- Z.pow_add_r by lia. f_equal. lia. }
    pose proof (pow2_pos (et - er) ltac:(lia)).
    rewrite Hm', H1. rewrite H2 in Hle.
    assert (Z.pos mr <= Z.pos mt * 2 ^ (et - er)) by nia. nia. }
  pose proof (Z_div_mod m' (Z.pos mt) ltac:(lia)) as Hdiv.
  destruct (Z.div_eucl m' (Z.pos mt)) as [q rem]. destruct Hdiv as [Hq Hrem].
  simpl xorb.
  apply binary_round_aux_le; [lia | nia | lia |].
  rewrite Z.mul_1_l.
  destruct (Z.eq_dec rem 0) as [-> | Hne].
  - rewrite new_location_exact.
    destruct (Z.eq_dec q (2 ^ (- e'))) as [-> | Hqne]; [by right | left; nia].
  - left. nia.
Qed.

(** [100] as a float. *)
Lemma Prim2SF_100 : Prim2SF 100%float = S754_finite false 7036874417766400 (-46).
Proof. reflexivity. Qed.

(** Rounding to nearest of a value below [2 ^ k]: the result is within
    two units of its last place of the value, and that place is no
    higher than the 52nd binary digit below [2 ^ k].  The value is
    [mx * 2 ^ ex], or lies between that and [(mx + 1) * 2 ^ ex]. *)
Lemma binary_round_aux_near (k : Z) (sx : bool) (mx ex : Z) (lx : location) :
  0 <= k <= 53 -> 0 <= mx -> ex <= 0 -> -1074 <= ex -> mx < 2 ^ (k - ex) ->
  ∃ m e, binary_round_aux prec emax sx mx ex lx = SFofZ sx m e ∧
         0 <= m ∧ ex <= e ∧ e <= Z.max ex (k - 52) ∧
         (m - 1) * 2 ^ (e - ex) <= mx < (m + 2) * 2 ^ (e - ex).
Proof.
  intros Hk Hmx Hex Hexlo Hlt.
  unfold binary_round_aux.
  destruct (shr_fexp_shifted mx ex lx Hmx) as [[Hm1 Hi1] He1].
  destruct (shr_fexp prec emax mx ex lx) as [mrs1 e1]. simpl fst in *. simpl snd in *.
  set (n1 := Z.max 0 (fexp prec emax (Zdigits2 mx + ex) - ex)) in *.
  assert (Hn1 : 0 <= n1) by lia.
  pose proof (Zdigits2_le mx (k - ex) Hmx ltac:(lia) Hlt) as Hd1.
  assert (He1' : e1 <= Z.max ex (k - 53)).
  { rewrite He1. unfold n1. rewrite fexp_binary64. lia. }
  pose proof (pow2_pos n1 Hn1) as P1.
  rewrite (proj1 (inexact_shr_record_of_loc mx lx)) in Hm1, Hi1.
  destruct (round_nearest_even_bounds (shr_m mrs1) (loc_of_shr_record mrs1)) as [Hr _].
  set (r := round_nearest_even (shr_m mrs1) (loc_of_shr_record mrs1)) in *.
  assert (Hm1' : 0 <= shr_m mrs1) by (rewrite Hm1; apply Z.div_pos; lia).
  pose proof (Z.div_mod mx (2 ^ n1) ltac:(lia)) as Hdm1.
  pose proof (Z.mod_pos_bound mx (2 ^ n1) P1) as Hmod1.
  rewrite <- Hm1 in Hdm1.
  assert (Hr0 : 0 <= r) by lia.
  (* r <= 2 ^ (k - e1) *)
  assert (Hsplit : 2 ^ (k - ex) = 2 ^ (k - e1) * 2 ^ n1).
  { rewrite <- Z.pow_add_r by lia. f_equal. lia. }
  pose proof (pow2_pos (k - e1) ltac:(lia)) as Pk1.
  assert (Hm1lt : shr_m mrs1 < 2 ^ (k - e1)).
  { rewrite Hm1. apply Z.div_lt_upper_bound; [lia |]. rewrite Hsplit in Hlt. lia. }
  assert (Hrlt : r < 2 ^ (k - e1 + 1)).
  { rewrite Z.pow_add_r by lia. change (2 ^ 1) with 2. lia. }
  destruct (shr_fexp_shifted r e1 loc_Exact Hr0) as [[Hm2 _] He2].
  destruct (shr_fexp prec emax r e1 loc_Exact) as [mrs2 e2]. simpl fst in *. simpl snd in *.
  set (n2 := Z.max 0 (fexp prec emax (Zdigits2 r + e1) - e1)) in *.
  assert (Hn2 : 0 <= n2) by lia.
  pose proof (Zdigits2_le r (k - e1 + 1) Hr0 ltac:(lia) Hrlt) as Hd2.
  assert (He2' : e2 <= Z.max ex (k - 52)).
  { rewrite He2. unfold n2. rewrite fexp_binary64. lia. }
  pose proof (pow2_pos n2 Hn2) as P2.
  rewrite (proj1 (inexact_shr_record_of_loc r loc_Exact)) in Hm2.
  pose proof (Z.div_mod r (2 ^ n2) ltac:(lia)) as Hdm2.
  pose proof (Z.mod_pos_bound r (2 ^ n2) P2) as Hmod2.
  rewrite <- Hm2 in Hdm2.
  assert (Hm2' : 0 <= shr_m mrs2) by (rewrite Hm2; apply Z.div_pos; lia).
  assert (Hpow : 2 ^ (e2 - ex) = 2 ^ n1 * 2 ^ n2).
  { rewrite <- Z.pow_add_r by lia. f_equal. lia. }
  exists (shr_m mrs2), e2.
  split.
  { destruct (shr_m mrs2) as [|m2|m2]; [done | | lia].
    assert (Hemax : (e2 <=? emax - prec) = true).
    { apply Z.leb_le. change (emax - prec) with 971. lia. }
    by rewrite Hemax. }
  split; [done |]. split; [lia |]. split; [done |].
  rewrite Hpow. split; nia.
Qed.

(** From the errors of the division and of the multiplication to the
    rounded percentage: with a quotient [mq / Dq] within [2 / Dq] of
    [r / t] and a product [mp / Dp] within [2 / Dp] of a hundred times
    the quotient, the integer [k] that [mp / Dp + 1/2] is rounded down
    to is within one half of [100 * r / t]; an exact percentage that is
    no half is further from the next half than the two errors
    together, [t] being below [2 ^ 32]. *)
Lemma nearest_from_bounds (r t mq Dq mp Dp k : Z) :
  0 < t < 2 ^ 32 -> 0 <= r -> 2 ^ 51 <= Dq -> 2 ^ 45 <= Dp ->
  (mq - 1) * t <= r * Dq < (mq + 2) * t ->
  (mp - 1) * Dq <= 100 * mq * Dp < (mp + 2) * Dq ->
  (2 * k - 1) * Dp <= 2 * mp < (2 * k + 1) * Dp ->
  2 * t * k - t <= 200 * r <= 2 * t * k + t.
Proof.
  intros Ht Hr HDq HDp [Hq1 Hq2] [Hp1 Hp2] [Hk1 Hk2].
  change (2 ^ 32) with 4294967296 in Ht.
  change (2 ^ 51) with 2251799813685248 in HDq.
  change (2 ^ 45) with 35184372088832 in HDp.
  assert (E5 : 8 * t * Dq <= Dp * Dq) by (apply Z.mul_le_mono_nonneg_r; lia).
  assert (E6 : 800 * t * Dp <= Dq * Dp) by (apply Z.mul_le_mono_nonneg_r; lia).
  assert (Pqp : 0 < Dq * Dp) by (apply Z.mul_pos_pos; lia).
  assert (PtDq : 0 < t * Dq) by (apply Z.mul_pos_pos; lia).
  split.
  - destruct (Z_le_gt_dec (2 * t * k - t) (200 * r)) as [| Hgt]; [done | exfalso].
    assert (E1 : 200 * ((mq - 1) * t) * Dp <= 200 * (r * Dq) * Dp)
      by (apply Z.mul_le_mono_nonneg_r; lia).
    assert (E2 : 2 * t * ((mp - 1) * Dq) <= 2 * t * (100 * mq * Dp))
      by (apply Z.mul_le_mono_nonneg_l; lia).
    assert (E3 : t * Dq * ((2 * k - 1) * Dp) <= t * Dq * (2 * mp))
      by (apply Z.mul_le_mono_nonneg_l; lia).
    assert (E4 : 200 * r * (Dq * Dp) <= ((2 * k - 1) * t - 1) * (Dq * Dp))
      by (apply Z.mul_le_mono_nonneg_r; lia).
    lia.
  - destruct (Z_le_gt_dec (200 * r) (2 * t * k + t)) as [| Hgt]; [done | exfalso].
    assert (E1 : 200 * (r * Dq) * Dp < 200 * ((mq + 2) * t) * Dp)
      by (apply Z.mul_lt_mono_pos_r; lia).
    assert (E2 : 2 * t * (100 * mq * Dp) < 2 * t * ((mp + 2) * Dq))
      by (apply Z.mul_lt_mono_pos_l; lia).
    assert (E3 : t * Dq * (2 * mp) < t * Dq * ((2 * k + 1) * Dp))
      by (apply Z.mul_lt_mono_pos_l; lia).
    assert (E4 : ((2 * k + 1) * t + 1) * (Dq * Dp) <= 200 * r * (Dq * Dp))
      by (apply Z.mul_le_mono_nonneg_r; lia).
    lia.
Qed.

Lemma Zdigits2_53 (m : positive) : 2 ^ 52 <= Z.pos m < 2 ^ 53 -> Zdigits2 (Z.pos m) = 53.
Proof.
  intros Hm.
  pose proof (Zdigits2_le (Z.pos m) 53 ltac:(lia) ltac:(lia) ltac:(lia)).
  pose proof (Zdigits2_gt (Z.pos m) 52 ltac:(lia) ltac:(lia)). lia.
Qed.

(** The quotient of two counts, the first positive and at most the
    second, is within two units of the last place of their exact ratio. *)
Lemma SFdiv_near (r t : Z) (mr mt : positive) (er et : Z) :
  0 < r <= t ->
  Z.pos mr = r * 2 ^ (- er) -> Z.pos mt = t * 2 ^ (- et) ->
  2 ^ 52 <= Z.pos mr < 2 ^ 53 -> 2 ^ 52 <= Z.pos mt < 2 ^ 53 ->
  er <= 0 -> et <= 0 ->
  ∃ mq eq,
    SFdiv prec emax (S754_finite false mr er) (S754_finite false mt et) = SFofZ false mq eq ∧
    0 <= mq ∧ -105 <= eq <= -51 ∧
    (mq - 1) * t <= r * 2 ^ (- eq) < (mq + 2) * t.
Proof.
  intros Hrt Hmr Hmt Hdr Hdt Her Het.
  pose proof (pow2_pos (- er) ltac:(lia)) as Per.
  pose proof (pow2_pos (- et) ltac:(lia)) as Pet.
  assert (Herlo : -52 <= er).
  { destruct (Z_le_gt_dec (-52) er) as [| Hgt]; [done | exfalso].
    assert (2 ^ 53 <= 2 ^ (- er)) by (apply Z.pow_le_mono_r; lia). nia. }
  assert (Hexp : er <= et).
  { destruct (Z_le_gt_dec er et) as [| Hgt]; [done | exfalso].
    assert (Hs : 2 ^ (- et) = 2 ^ (- er) * 2 ^ (er - et)).
    { rewrite <- Z.pow_add_r by lia. f_equal. lia. }
    assert (2 ^ 1 <= 2 ^ (er - et)) by (apply Z.pow_le_mono_r; lia).
    change (2 ^ 1) with 2 in *. change (2 ^ 53) with (2 * 2 ^ 52) in *. nia. }
  unfold SFdiv, SFdiv_core_binary.
  rewrite (Zdigits2_53 mr Hdr), (Zdigits2_53 mt Hdt), fexp_binary64.
  set (e' := Z.min (Z.max (53 + er - (53 + et) - 53) (-1074)) (er - et)).
  assert (He' : e' = er - et - 53) by lia.
  set (s := er - et - e'). assert (Hs : s = 53) by lia.
  set (m' := match s with Z.pos _ => Z.shiftl (Z.pos mr) s | 0 => Z.pos mr | Z.neg _ => 0 end).
  assert (Hm53 : m' = Z.pos mr * 2 ^ 53).
  { unfold m'. rewrite Hs. by rewrite Z.shiftl_mul_pow2. }
  clearbody m' e'. clear s Hs. subst m'.
  pose proof (pow2_pos (- e') ltac:(lia)) as Pe'.
  assert (H53 : 2 ^ (- er) * 2 ^ 53 = 2 ^ (- e') * 2 ^ (- et)).
  { rewrite <- !Z.pow_add_r by lia. f_equal. lia. }
  pose proof (Z_div_mod (Z.pos mr * 2 ^ 53) (Z.pos mt) ltac:(lia)) as Hdiv.
  destruct (Z.div_eucl (Z.pos mr * 2 ^ 53) (Z.pos mt)) as [q rem]. destruct Hdiv as [Hq Hrem].
  simpl xorb.
  assert (Hm' : Z.pos mr * 2 ^ 53 = r * 2 ^ (- e') * 2 ^ (- et)).
  { rewrite Hmr, <- !Z.mul_assoc, H53. ring. }
  assert (Hq0 : 0 <= q) by nia.
  assert (Hqt : q * t <= r * 2 ^ (- e') < (q + 1) * t).
  { rewrite Hm', Hmt in Hq. rewrite Hmt in Hrem. split; nia. }
  assert (Hqle : q <= 2 ^ (- e')) by nia.
  destruct (binary_round_aux_near 1 false q e' (new_location (Z.pos mt) rem))
    as (m & e & Hres & Hm0 & Hlo & Hhi & Hnear).
  { lia. } { done. } { lia. } { lia. }
  { replace (1 - e') with (- e' + 1) by lia. rewrite Z.pow_add_r by lia.
    change (2 ^ 1) with 2. lia. }
  exists m, e. split; [done |]. split; [done |].
  split; [lia |].
  assert (HP : 2 ^ (- e') = 2 ^ (- e) * 2 ^ (e - e')).
  { rewrite <- Z.pow_add_r by lia. f_equal. lia. }
  pose proof (pow2_pos (e - e') ltac:(lia)) as PP.
  pose proof (pow2_pos (- e) ltac:(lia)) as Pe.
  rewrite HP in Hqt. split; nia.
Qed.

(** A float that is at most 1, times [100], is within two units of the
    last place of the exact product. *)
Lemma SFmul_100_near (mq : positive) (eq : Z) :
  -105 <= eq <= -51 -> Z.pos mq <= 1 * 2 ^ (- eq) ->
  ∃ mp ep,
    SFmul prec emax (S754_finite false mq eq) (Prim2SF 100%float) = SFofZ false mp ep ∧
    0 <= mp ∧ ep <= -45 ∧
    (mp - 1) * 2 ^ (- eq) <= 100 * Z.pos mq * 2 ^ (- ep) < (mp + 2) * 2 ^ (- eq).
Proof.
  intros Heq Hle. rewrite Prim2SF_100. unfold SFmul. simpl xorb.
  pose proof (pow2_pos (- eq) ltac:(lia)) as Pq.
  rewrite Pos2Z.inj_mul. change (Z.pos 7036874417766400) with (100 * 2 ^ 46).
  assert (Hpow : 2 ^ (7 - (eq + -46)) = 128 * 2 ^ 46 * 2 ^ (- eq)).
  { change 128 with (2 ^ 7). rewrite <- !Z.pow_add_r by lia. f_equal. lia. }
  destruct (binary_round_aux_near 7 false (Z.pos mq * (100 * 2 ^ 46)) (eq + -46) loc_Exact)
    as (m & e & Hres & Hm0 & Hlo & Hhi & Hnear).
  { lia. } { lia. } { lia. } { lia. }
  { rewrite Hpow. change (2 ^ 46) with 70368744177664. lia. }
  exists m, e. split; [done |]. split; [done |]. split; [lia |].
  assert (HP : 2 ^ 46 * 2 ^ (- eq) = 2 ^ (e - (eq + -46)) * 2 ^ (- e)).
  { rewrite <- !Z.pow_add_r by lia. f_equal. lia. }
  pose proof (pow2_pos (e - (eq + -46)) ltac:(lia)) as PP.
  pose proof (pow2_pos (- e) ltac:(lia)) as Pe.
  set (P := 2 ^ (e - (eq + -46))) in *. set (D := 2 ^ (- e)) in *. set (Dq := 2 ^ (- eq)) in *.
  change (2 ^ 46) with 70368744177664 in *.
  destruct Hnear as [Hn1 Hn2].
  assert (E1 : (m - 1) * P * D <= Z.pos mq * (100 * 70368744177664) * D)
    by (apply Z.mul_le_mono_nonneg_r; lia).
  assert (E2 : Z.pos mq * (100 * 70368744177664) * D < (m + 2) * P * D)
    by (apply Z.mul_lt_mono_pos_r; lia).
  assert (E3 : (m - 1) * (70368744177664 * Dq) = (m - 1) * P * D) by (rewrite HP; ring).
  assert (E4 : (m + 2) * (70368744177664 * Dq) = (m + 2) * P * D) by (rewrite HP; ring).
  split; lia.
Qed.

(** The number of a count up to 100. *)
Lemma of_nat_normalize (z : Z) :
  0 <= z <= 100 ->
  SF2Prim (binary_normalize prec emax z 0 false) = Js.of_nat (Z.to_nat z).
Proof.
  intros Hz. unfold Js.of_nat.
  rewrite <- (SF2Prim_Prim2SF (of_uint63 _)), of_uint63_spec, Uint63.of_Z_spec.
  rewrite Z2Nat.id by lia. rewrite Z.mod_small by (change wB with (2 ^ 63); lia). done.
Qed.

(** The percentage of a part of a whole is a whole number nearest to
    the exact percentage [100 * r / t]: it differs from it by at most
    one half. *)
Lemma percentage_nearest (r t : nat) :
  (r <= t)%nat -> 0 < Z.of_nat t < 2 ^ 32 ->
  ∃ k : nat,
    Js.Math_round
      (PrimFloat.mul (PrimFloat.div (Js.of_nat r) (Js.of_nat t)) 100%float)
    = Js.of_nat k ∧
    (k <= 100)%nat ∧
    2 * Z.of_nat t * Z.of_nat k - Z.of_nat t <= 200 * Z.of_nat r
      <= 2 * Z.of_nat t * Z.of_nat k + Z.of_nat t.
Proof.
  intros Hrt Ht.
  assert (Ht53 : 0 < Z.of_nat t < 2 ^ 53).
  { change (2 ^ 32) with 4294967296 in Ht. change (2 ^ 53) with 9007199254740992. lia. }
  set (x := PrimFloat.mul (PrimFloat.div (Js.of_nat r) (Js.of_nat t)) 100%float).
  destruct r as [|r'].
  { exists 0%nat. split; [| lia].
    assert (Ex : Prim2SF x = S754_zero false).
    { unfold x. rewrite FloatAxioms.mul_spec, FloatAxioms.div_spec. unfold SF64mul, SF64div.
      destruct (Prim2SF_of_nat t Ht53) as (mt & et & Et & _). by rewrite Et, Prim2SF_of_nat_0. }
    unfold Js.Math_round. rewrite Ex. by rewrite <- (SF2Prim_Prim2SF x), Ex. }
  assert (Hx : ∃ mq eq mp ep,
    Prim2SF x = SFofZ false mp ep ∧ 0 <= mp ∧ ep <= -45 ∧ -105 <= eq <= -51 ∧ 0 <= mq ∧
    (mq - 1) * Z.of_nat t <= Z.of_nat (S r') * 2 ^ (- eq) < (mq + 2) * Z.of_nat t ∧
    (mp - 1) * 2 ^ (- eq) <= 100 * mq * 2 ^ (- ep) < (mp + 2) * 2 ^ (- eq)).
  { unfold x. rewrite FloatAxioms.mul_spec, FloatAxioms.div_spec. unfold SF64mul, SF64div.
    destruct (Prim2SF_of_nat t Ht53) as (mt & et & Et & Het & Hmt & Hdt). rewrite Et.
    destruct (Prim2SF_of_nat (S r') ltac:(lia)) as (mr & er & Er & Her & Hmr & Hdr).
    rewrite Er.
    assert (Hval : Z.pos mr * 2 ^ (- et) <= Z.pos mt * 2 ^ (- er)).
    { rewrite Hmr, Hmt.
      pose proof (pow2_pos (- er) ltac:(lia)). pose proof (pow2_pos (- et) ltac:(lia)).
      nia. }
    pose proof (SFdiv_le_1 mr mt er et Hdr Hdt Her Het Hval) as Hdiv.
    destruct (SFdiv_near (Z.of_nat (S r')) (Z.of_nat t) mr mt er et)
      as (mq & eq & Eq & Hmq & Heq & Hq); try done; [lia |].
    rewrite Eq in Hdiv |- *.
    destruct mq as [|mq|mq]; [| | lia].
    - exfalso. pose proof (pow2_pos (- eq) ltac:(lia)).
      assert (2 ^ 51 <= 2 ^ (- eq)) by (apply Z.pow_le_mono_r; lia).
      change (2 ^ 51) with 2251799813685248 in *. change (2 ^ 32) with 4294967296 in *.
      nia.
    - simpl SFofZ in *. destruct Hdiv as (_ & _ & Hle).
      destruct (SFmul_100_near mq eq Heq Hle) as (mp & ep & Ep & Hmp & Hep & Hp).
      exists (Z.pos mq), eq, mp, ep. done. }
  destruct Hx as (mq & eq & mp & ep & Ex & Hmp & Hep & Heq & Hmq & Hq & Hp).
  assert (HDq : 2 ^ 51 <= 2 ^ (- eq)) by (apply Z.pow_le_mono_r; lia).
  assert (HDp : 2 ^ 45 <= 2 ^ (- ep)) by (apply Z.pow_le_mono_r; lia).
  pose proof (pow2_pos (- ep) ltac:(lia)) as Pe.
  set (d := 2 ^ (- ep)) in *.
  set (k := (2 * mp + d) / (2 * d)).
  assert (Hk : (2 * k - 1) * d <= 2 * mp < (2 * k + 1) * d).
  { assert (Hdm : 2 * mp + d = 2 * d * k + (2 * mp + d) mod (2 * d))
      by (unfold k; apply Z.div_mod; lia).
    pose proof (Z.mod_pos_bound (2 * mp + d) (2 * d) ltac:(lia)) as Hmod.
    set (M := (2 * mp + d) mod (2 * d)) in *. clearbody M k. lia. }
  assert (Hk0 : 0 <= k) by (apply Z.div_pos; lia).
  pose proof (nearest_from_bounds _ _ _ _ _ _ k Ht (Nat2Z.is_nonneg _) HDq HDp Hq Hp Hk)
    as Hnear.
  assert (Hk100 : k <= 100) by nia.
  exists (Z.to_nat k). rewrite Z2Nat.id by done. split; [| split; [lia | done]].
  unfold Js.Math_round. destruct mp as [|mp|mp]; [| | lia].
  - simpl SFofZ in Ex. rewrite Ex.
    rewrite <- (SF2Prim_Prim2SF x), Ex.
    assert (k = 0) as ->; [| reflexivity].
    unfold k. apply Z.div_small. lia.
  - simpl SFofZ in Ex. rewrite Ex.
    destruct (Z.leb_spec 0 ep) as [He0 | He0]; [lia |].
    cbv zeta. fold d. fold k. by apply of_nat_normalize.
Qed.

End FloatFacts.

(** ** components/BugStats.jsx *)

Section BugStatsFacts.

Lemma status_counts_sum (bugs : list Bug) :
  length (List.filter (fun bug => status_eqb (status bug) Open) bugs) +
  length (List.filter (fun bug => status_eqb (status bug) InProgress) bugs) +
  length (List.filter (fun bug => status_eqb (status bug) Resolved) bugs) +
  length (List.filter (fun bug => status_eqb (status bug) Closed) bugs) = length bugs.
Proof.
  induction bugs as [|bug bugs IH]; [done |].
  simpl. destruct (status bug); simpl; lia.
Qed.

Lemma priority_counts_sum (bugs : list Bug) :
  length (List.filter (fun bug => priority_eqb (priority bug) Low) bugs) +
  length (List.filter (fun bug => priority_eqb (priority bug) Medium) bugs) +
  length (List.filter (fun bug => priority_eqb (priority bug) High) bugs) +
  length (List.filter (fun bug => priority_eqb (priority bug) Critical) bugs) = length bugs.
Proof.
  induction bugs as [|bug bugs IH]; [done |].
  simpl. destruct (priority bug); simpl; lia.
Qed.

(** The length of a filter by status is the number of bugs with that
    status; likewise for the priorities. *)
Lemma filter_status_count (s : BugStatus) (bugs : list Bug) :
  length (List.filter (fun bug => status_eqb (status bug) s) bugs) = Spec.withStatus s bugs.
Proof.
  unfold Spec.withStatus. induction bugs as [|bug bugs IH]; [done |].
  cbn [List.filter List.map count_occ].
  destruct (BugStatus_eq_dec (status bug) s) as [-> | Hne].
  - replace (status_eqb s s) with true by (by destruct s). simpl. by rewrite IH.
  - replace (status_eqb (status bug) s) with false; [done |].
    destruct (status bug), s; done.
Qed.

Lemma filter_priority_count (p : BugPriority) (bugs : list Bug) :
  length (List.filter (fun bug => priority_eqb (priority bug) p) bugs)
  = Spec.withPriority p bugs.
Proof.
  unfold Spec.withPriority. induction bugs as [|bug bugs IH]; [done |].
  cbn [List.filter List.map count_occ].
  destruct (BugPriority_eq_dec (priority bug) p) as [-> | Hne].
  - replace (priority_eqb p p) with true by (by destruct p). simpl. by rewrite IH.
  - replace (priority_eqb (priority bug) p) with false; [done |].
    destruct (priority bug), p; done.
Qed.

Lemma filter_length_le {A} (f : A -> bool) (l : list A) :
  length (List.filter f l) <= length l.
Proof. apply sublist_length, filter_sublist. Qed.

(** The numbers of the counts 0 to 100 lie between [0] and [100]. *)
Lemma of_nat_between_0_100 (k : nat) :
  k <= 100 ->
  PrimFloat.leb 0%float (Js.of_nat k) = true ∧ PrimFloat.leb (Js.of_nat k) 100%float = true.
Proof.
  intros Hk.
  do 101 (destruct k as [|k]; [by vm_compute |]). lia.
Qed.

End BugStatsFacts.



(** The percentage is computed on doubles, which decides where the
    exact percentage lies half-way between two whole numbers: of 200
    bugs with 29 resolved, 14.5 per cent, the quotient times 100 is
    14.499999999999998, which rounds to 14, while one resolved bug of
    200, 0.5 per cent, gives 1; two resolved bugs of three give 67. *)
Remark resolvedPercentage_on_doubles :
  BugStats.resolvedPercentage
    (BugStats.computeStats (repeat Sample.bugB 29 ++ repeat Sample.bugA 171)) = 14%float ∧
  BugStats.resolvedPercentage
    (BugStats.computeStats (repeat Sample.bugB 1 ++ repeat Sample.bugA 199)) = 1%float ∧
  BugStats.resolvedPercentage
    (BugStats.computeStats [Sample.bugA; Sample.bugB; Sample.bugB]) = 67%float.
Proof. repeat split; by vm_compute. Qed.

(** ** components/BugForm.jsx *)

Section BugFormFacts.
Import Js BugForm.

Lemma typeIssue_path (expected : string) (p : list PathItem) (v : Value) :
  path (typeIssue expected p v) = p.
Proof. by destruct v. Qed.

Lemma titleSchema_fails (p : list PathItem) (v : Value) :
  Spec.stringOfLength 1 100 v = false -> ∃ issue, In issue (issuesOf (titleSchema p v)) ∧ path issue = p.
Proof.
  unfold titleSchema, z_string, Spec.stringOfLength.
  destruct v as [| | | |s| |]; try (intros _; eexists; split; [by left | apply typeIssue_path]).
  intros H. simpl. unfold min, max.
  destruct (Nat.ltb_spec (String.length s) 1), (Nat.ltb_spec 100 (String.length s));
    simpl; try (eexists; split; [by left | done]).
  exfalso. apply andb_false_iff in H as [H|H]; apply Nat.leb_gt in H; lia.
Qed.

Lemma descriptionSchema_fails (p : list PathItem) (v : Value) :
  Spec.stringOfLength 10 1000 v = false -> ∃ issue, In issue (issuesOf (descriptionSchema p v)) ∧ path issue = p.
Proof.
  unfold descriptionSchema, z_string, Spec.stringOfLength.
  destruct v as [| | | |s| |]; try (intros _; eexists; split; [by left | apply typeIssue_path]).
  intros H. simpl. unfold min, max.
  destruct (Nat.ltb_spec (String.length s) 10), (Nat.ltb_spec 1000 (String.length s));
    simpl; try (eexists; split; [by left | done]).
  exfalso. apply andb_false_iff in H as [H|H]; apply Nat.leb_gt in H; lia.
Qed.

Lemma required_fails (msg : string) (p : list PathItem) (v : Value) :
  Spec.nonEmptyString v = false -> ∃ issue, In issue (issuesOf (z_string [min 1 msg] p v)) ∧ path issue = p.
Proof.
  unfold z_string, Spec.nonEmptyString.
  destruct v as [| | | |s| |]; try (intros _; eexists; split; [by left | apply typeIssue_path]).
  destruct s; [intros _; eexists; split; [by left | done] | discriminate].
Qed.

Lemma priority_of_literal_None (s : string) :
  existsb (String.eqb s) ["low"; "medium"; "high"; "critical"] = false ->
  priority_of_literal s = None.
Proof.
  intros H. destruct (priority_of_literal s) as [p|] eqn:E; [| done].
  apply find_some in E as [_ E]. apply String.eqb_eq in E. subst s.
  by destruct p.
Qed.

Lemma z_enum_priority_fails (p : list PathItem) (v : Value) :
  Spec.priorityValue v = false -> ∃ issue, In issue (issuesOf (z_enum_priority p v)) ∧ path issue = p.
Proof.
  unfold z_enum_priority, Spec.priorityValue.
  destruct v as [| | | |s| |]; try (intros _; eexists; split; [by left | apply typeIssue_path]).
  intros H. rewrite (priority_of_literal_None s H). eexists; split; [by left | done].
Qed.

(** [z.object] fails as soon as one key fails, and reports the issues
    of every key. *)
Lemma bugFormSchema_gathers (values : gmap string Value) (issue : ZodIssue) :
  In issue (issuesOf (titleSchema [Key "title"] (get values "title"))) ∨
  In issue (issuesOf (descriptionSchema [Key "description"] (get values "description"))) ∨
  In issue (issuesOf (z_enum_priority [Key "priority"] (get values "priority"))) ∨
  In issue (issuesOf (assigneeSchema [Key "assignee"] (get values "assignee"))) ∨
  In issue (issuesOf (reporterSchema [Key "reporter"] (get values "reporter"))) ∨
  In issue (issuesOf (environmentSchema [Key "environment"] (get values "environment"))) ->
  ∃ issues, bugFormSchema values = ParseErr issues ∧ In issue issues.
Proof.
  unfold bugFormSchema.
  generalize (titleSchema [Key "title"] (get values "title")) as r1.
  generalize (descriptionSchema [Key "description"] (get values "description")) as r2.
  generalize (z_enum_priority [Key "priority"] (get values "priority")) as r3.
  generalize (assigneeSchema [Key "assignee"] (get values "assignee")) as r4.
  generalize (reporterSchema [Key "reporter"] (get values "reporter")) as r5.
  generalize (environmentSchema [Key "environment"] (get values "environment")) as r6.
  generalize (z_boolean [Key "reproducible"] (get values "reproducible")) as r7.
  generalize (stepsToReproduceSchema [Key "stepsToReproduce"]
                (get values "stepsToReproduce")) as r8.
  generalize (tagsSchema [Key "tags"] (get values "tags")) as r9.
  intros r9 r8 r7 r6 r5 r4 r3 r2 r1 H.
  assert (Hin : In issue (issuesOf r1 ++ issuesOf r2 ++ issuesOf r3 ++ issuesOf r4 ++
                          issuesOf r5 ++ issuesOf r6 ++ issuesOf r7 ++ issuesOf r8 ++
                          issuesOf r9)).
  { rewrite !in_app_iff. tauto. }
  destruct r1; [| by eexists]. destruct r2; [| by eexists].
  destruct r3; [| by eexists]. destruct r4; [| by eexists].
  destruct r5; [| by eexists]. destruct r6; [| by eexists].
  simpl in H. tauto.
Qed.

(** [zodResolver] keeps an issue for every path that has one. *)
Lemma toFieldErrors_keeps_path (seen : list (list PathItem)) (issues : list ZodIssue)
    (issue : ZodIssue) :
  In issue issues -> path issue ∉ seen ->
  ∃ kept, In kept (toFieldErrors seen issues) ∧ path kept = path issue.
Proof.
  revert seen. induction issues as [|h rest IH]; intros seen Hin Hseen; [done |].
  simpl. case_bool_decide as Hh.
  - destruct Hin as [-> | Hin]; [done |]. by apply IH.
  - destruct (decide (path h = path issue)) as [Heq | Hne].
    + exists h. split; [by left | done].
    + destruct Hin as [-> | Hin]; [done |].
      destruct (IH (path h :: seen) Hin) as (kept & Hk & Hp).
      * rewrite elem_of_cons. intros [? | ?]; [congruence | done].
      * exists kept. split; [by right | done].
Qed.

(** A violated field has an issue among those the schema reports. *)
Lemma violates_issue (values : gmap string Value) (field : string) :
  Spec.violates values field ->
  ∃ issues issue,
    bugFormSchema values = ParseErr issues ∧ In issue issues ∧ path issue = [Key field].
Proof.
  intros Hv.
  assert (∃ issue, path issue = [Key field] ∧
    (In issue (issuesOf (titleSchema [Key "title"] (get values "title"))) ∨
     In issue (issuesOf (descriptionSchema [Key "description"] (get values "description"))) ∨
     In issue (issuesOf (z_enum_priority [Key "priority"] (get values "priority"))) ∨
     In issue (issuesOf (assigneeSchema [Key "assignee"] (get values "assignee"))) ∨
     In issue (issuesOf (reporterSchema [Key "reporter"] (get values "reporter"))) ∨
     In issue (issuesOf (environmentSchema [Key "environment"] (get values "environment")))))
    as (issue & Hp & Hin).
  { destruct Hv as [[-> H] | [[-> H] | [[-> H] | [[-> H] | [[-> H] | [-> H]]]]]].
    - apply (titleSchema_fails [Key "title"]) in H as (i & Hi & Hp).
      exists i. tauto.
    - apply (descriptionSchema_fails [Key "description"]) in H as (i & Hi & Hp).
      exists i. tauto.
    - apply (z_enum_priority_fails [Key "priority"]) in H as (i & Hi & Hp).
      exists i. tauto.
    - apply (required_fails "Assignee is required" [Key "assignee"])
        in H as (i & Hi & Hp).
      exists i. tauto.
    - apply (required_fails "Reporter is required" [Key "reporter"])
        in H as (i & Hi & Hp).
      exists i. tauto.
    - apply (required_fails "Environment is required" [Key "environment"])
        in H as (i & Hi & Hp).
      exists i. tauto. }
  destruct (bugFormSchema_gathers values issue Hin) as (issues & Hs & Hi).
  by exists issues, issue.
Qed.

End BugFormFacts.

(** Whenever the values of the form violate a field constraint,
    submitting does not succeed: [onSubmit], which creates the bug, is
    not called, and the validation error that results has an entry for
    every field whose constraint is violated, not only for the first. *)
Lemma handleSubmit_rejects_and_lists_every_violation
    {R : Type} (onSubmit : BugForm.BugFormData -> R)
    (values : gmap string Js.Value) (field : string) :
  Spec.violates values field ->
  ∃ errors,
    BugForm.handleSubmit onSubmit values = BugForm.ValidationError errors ∧
    ∀ violated, Spec.violates values violated ->
      ∃ issue, In issue errors ∧ BugForm.path issue = [BugForm.Key violated].
Proof.
  intros Hv. destruct (violates_issue values field Hv) as (issues & _ & Hs & _).
  exists (BugForm.toFieldErrors [] issues). unfold BugForm.handleSubmit. rewrite Hs.
  split; [done |].
  intros violated Hviolated.
  destruct (violates_issue values violated Hviolated) as (issues' & issue & Hs' & Hin & Hp).
  assert (issues' = issues) as -> by congruence.
  destruct (toFieldErrors_keeps_path [] issues issue Hin) as (kept & Hk & Hkp).
  - apply not_elem_of_nil.
  - exists kept. split; [done | congruence].
Qed.

(** The creation scenario of the specification passes the schema, with
    the tags defaulting to none; the form of [Sample.badForm] is
    rejected with one entry for each of its five violated fields. *)
Example create_scenarios :
  BugForm.handleSubmit (fun data => data) Sample.formA
    = BugForm.Submitted
        (BugForm.mkFormData "Crash on save" "App crashes when saving a document over 10MB"
           Critical "Alice" "Bob" "Chrome 120" false None []) ∧
  match BugForm.handleSubmit (fun data => data) Sample.badForm with
  | BugForm.ValidationError errors =>
      List.map BugForm.path errors =
        [[BugForm.Key "title"]; [BugForm.Key "description"]; [BugForm.Key "assignee"];
         [BugForm.Key "reporter"]; [BugForm.Key "environment"]]
  | BugForm.Submitted _ => False
  end.
Proof. split; reflexivity. Qed.

(** ** ErrorBoundary.jsx *)

Section ErrorBoundaryFacts.
Import ErrorBoundary.

Lemma catchError_hasError (e : Error) (info : ErrorInfo) (st : State) :
  catchError e info st = mkState true (Some e) (Some info).
Proof. reflexivity. Qed.

Lemma handleRetry_clears (st : State) : handleRetry st = mkState false None None.
Proof. reflexivity. Qed.

End ErrorBoundaryFacts.

(** C10, as the code has it. Without a caught error the boundary
    renders its children as they are, and it does so from its initial
    state; once an error has been caught [hasError] is set, and the
    boundary renders the fallback when that is truthy and its default
    card in every other case: when no fallback was given, and also when
    one was supplied but is falsy; [handleRetry] resets [hasError],
    [error] and [errorInfo], after which the children are rendered
    again. *)
Theorem errorBoundary_render_and_retry
    (development : bool) (props : ErrorBoundary.Props) (st : ErrorBoundary.State)
    (e : ErrorBoundary.Error) (info : ErrorBoundary.ErrorInfo) :
  ErrorBoundary.render development props ErrorBoundary.initialState
    = ErrorBoundary.children props ∧
  (ErrorBoundary.hasError st = false ->
   ErrorBoundary.render development props st = ErrorBoundary.children props) ∧
  (ErrorBoundary.hasError st = true ->
   ErrorBoundary.truthy (ErrorBoundary.fallback props) = true ->
   ErrorBoundary.render development props st = ErrorBoundary.fallback props) ∧
  (ErrorBoundary.hasError st = true ->
   ErrorBoundary.truthy (ErrorBoundary.fallback props) = false ->
   ErrorBoundary.render development props st = ErrorBoundary.errorCard development st) ∧
  (ErrorBoundary.hasError st = true ->
   ErrorBoundary.fallback props = ErrorBoundary.RUndefined ->
   ErrorBoundary.render development props st = ErrorBoundary.errorCard development st) ∧
  ErrorBoundary.hasError (ErrorBoundary.catchError e info st) = true ∧
  ErrorBoundary.handleRetry st = ErrorBoundary.mkState false None None ∧
  ErrorBoundary.render development props (ErrorBoundary.handleRetry st)
    = ErrorBoundary.children props.
Proof.
  unfold ErrorBoundary.render.
  repeat split; try (by intros ->); by intros -> ->.
Qed.

(** C10 fails for a fallback that is supplied but falsy: with the
    number 0 as fallback, which React would show as the text 0, the
    boundary shows its default card after an error, not the fallback. *)
Lemma errorBoundary_falsy_fallback_not_rendered :
  ErrorBoundary.fallback
    (ErrorBoundary.mkProps (ErrorBoundary.RString "app") (ErrorBoundary.RNumber 0%float))
    ≠ ErrorBoundary.RUndefined ∧
  ErrorBoundary.render false
    (ErrorBoundary.mkProps (ErrorBoundary.RString "app") (ErrorBoundary.RNumber 0%float))
    (ErrorBoundary.catchError (ErrorBoundary.mkError "boom") (ErrorBoundary.mkErrorInfo "at App")
       ErrorBoundary.initialState)
  = ErrorBoundary.errorCard false
      (ErrorBoundary.mkState true (Some (ErrorBoundary.mkError "boom"))
         (Some (ErrorBoundary.mkErrorInfo "at App"))) ∧
  ErrorBoundary.render false
    (ErrorBoundary.mkProps (ErrorBoundary.RString "app") (ErrorBoundary.RNumber 0%float))
    (ErrorBoundary.catchError (ErrorBoundary.mkError "boom") (ErrorBoundary.mkErrorInfo "at App")
       ErrorBoundary.initialState)
  ≠ ErrorBoundary.RNumber 0%float.
Proof. split; [discriminate | split; [reflexivity | discriminate]]. Qed.

(** ** bugController.js *)

Section ServerFacts.
Import Js Server.
Context {ObjectId : Type} `{Countable ObjectId}.
Variable castObjectId : string -> option ObjectId.
Variable schemaErrors : gmap string Value -> list string.
Variable construct : Z -> gmap string Value -> gmap string Value.
Variable castUpdate : gmap string Value -> QueryError + gmap string Value.
Variable applyUpdate : Z -> gmap string Value -> gmap string Value -> gmap string Value.

Lemma applyPatch_updatedAt (now : Z) (patch doc : gmap string Value) :
  applyPatch now patch doc !! "updatedAt" = Some (VDate now).
Proof. unfold applyPatch. apply lookup_insert_eq. Qed.

Lemma applyPatch_createdAt (now : Z) (patch doc : gmap string Value) :
  applyPatch now patch doc !! "createdAt" = doc !! "createdAt".
Proof.
  unfold applyPatch. rewrite lookup_insert_ne by done.
  rewrite lookup_union_r; [done | apply lookup_delete_eq].
Qed.

Lemma applyPatch_patched (now : Z) (patch doc : gmap string Value) (k : string) (v : Value) :
  k ≠ "updatedAt" -> k ≠ "createdAt" -> patch !! k = Some v ->
  applyPatch now patch doc !! k = Some v.
Proof.
  intros H1 H2 Hk. unfold applyPatch. rewrite lookup_insert_ne by done.
  apply lookup_union_Some_l. by rewrite lookup_delete_ne.
Qed.

Lemma applyPatch_frame (now : Z) (patch doc : gmap string Value) (k : string) :
  k ≠ "updatedAt" -> patch !! k = None ->
  applyPatch now patch doc !! k = doc !! k.
Proof.
  intros H1 Hk. unfold applyPatch. rewrite lookup_insert_ne by done.
  apply lookup_union_r. destruct (decide (k = "createdAt")) as [->|Hne].
  - apply lookup_delete_eq.
  - by rewrite lookup_delete_ne.
Qed.

Lemma updateBug_rejected (now : Z) (id : string) (patch : gmap string Value)
    (db : gmap ObjectId (gmap string Value)) :
  castObjectId id = None ->
  updateBug castObjectId castUpdate applyUpdate now id patch db
    = (db, Rejected (CastError id)).
Proof. intros Hc. unfold updateBug, findByIdAndUpdate. by rewrite Hc. Qed.

Lemma updateBug_uncastable (now : Z) (id : string) (_id : ObjectId) (error : QueryError)
    (patch : gmap string Value) (db : gmap ObjectId (gmap string Value)) :
  castObjectId id = Some _id -> castUpdate patch = inl error ->
  updateBug castObjectId castUpdate applyUpdate now id patch db = (db, Rejected error).
Proof. intros Hc Hu. unfold updateBug, findByIdAndUpdate. by rewrite Hc, Hu. Qed.

Lemma updateBug_present (now : Z) (id : string) (_id : ObjectId)
    (patch update doc : gmap string Value) (db : gmap ObjectId (gmap string Value)) :
  castObjectId id = Some _id -> castUpdate patch = inr update -> db !! _id = Some doc ->
  updateBug castObjectId castUpdate applyUpdate now id patch db =
    (<[_id := applyUpdate now update doc]> db,
     Responded (mkResponse 200 (BodyDoc _id (applyUpdate now update doc)))).
Proof. intros Hc Hu H1. unfold updateBug, findByIdAndUpdate. by rewrite Hc, Hu, H1. Qed.

Lemma updateBug_absent (now : Z) (id : string) (_id : ObjectId)
    (patch update : gmap string Value) (db : gmap ObjectId (gmap string Value)) :
  castObjectId id = Some _id -> castUpdate patch = inr update -> db !! _id = None ->
  updateBug castObjectId castUpdate applyUpdate now id patch db
    = (db, Responded (mkResponse 200 BodyNull)).
Proof. intros Hc Hu H1. unfold updateBug, findByIdAndUpdate. by rewrite Hc, Hu, H1. Qed.

(** The collection after [updateBug], whatever the id and the patch. *)
Lemma updateBug_collection (now : Z) (id : string) (patch : gmap string Value)
    (db : gmap ObjectId (gmap string Value)) :
  (updateBug castObjectId castUpdate applyUpdate now id patch db).1 =
  match castObjectId id, castUpdate patch with
  | Some _id, inr update =>
      match db !! _id with
      | Some doc => <[_id := applyUpdate now update doc]> db
      | None => db
      end
  | _, _ => db
  end.
Proof.
  unfold updateBug, findByIdAndUpdate.
  destruct (castObjectId id) as [_id|]; [| done].
  destruct (castUpdate patch) as [error | update]; [done |].
  by destruct (db !! _id).
Qed.

Lemma deleteBug_rejected (id : string) (db : gmap ObjectId (gmap string Value)) :
  castObjectId id = None ->
  deleteBug castObjectId id db = (db, Rejected (CastError id)).
Proof. intros Hc. unfold deleteBug, findByIdAndDelete. by rewrite Hc. Qed.

Lemma deleteBug_cast (id : string) (_id : ObjectId)
    (db : gmap ObjectId (gmap string Value)) :
  castObjectId id = Some _id ->
  deleteBug castObjectId id db =
    (delete _id db, Responded (mkResponse 200 (BodyMessage "Bug deleted"))).
Proof. intros Hc. unfold deleteBug, findByIdAndDelete. by rewrite Hc. Qed.

(** The ways [createBug] ends. *)
Lemma createBug_cases (now : Z) (_id : ObjectId) (reqBody : gmap string Value)
    (db : gmap ObjectId (gmap string Value)) :
  (schemaErrors (construct now reqBody) = [] ∧ db !! _id = None ∧
   createBug schemaErrors construct now _id reqBody db =
     (<[_id := construct now reqBody]> db,
      Responded (mkResponse 201 (BodyDoc _id (construct now reqBody))))) ∨
  (∃ error, createBug schemaErrors construct now _id reqBody db = (db, Rejected error)).
Proof.
  unfold createBug, save.
  destruct (schemaErrors (construct now reqBody)) as [|path paths]; [| right; by eexists].
  destruct (db !! _id) as [doc|]; [right; by eexists | by left].
Qed.

(** The collection after [deleteBug], whatever the id. *)
Lemma deleteBug_collection (id : string) (db : gmap ObjectId (gmap string Value)) :
  (deleteBug castObjectId id db).1 =
  match castObjectId id with
  | Some _id => delete _id db
  | None => db
  end.
Proof.
  destruct (castObjectId id) as [_id|] eqn:Hc.
  - by rewrite (deleteBug_cast id _id db Hc).
  - by rewrite (deleteBug_rejected id db Hc).
Qed.

Lemma createBug_saved (now : Z) (_id : ObjectId) (reqBody : gmap string Value)
    (db : gmap ObjectId (gmap string Value)) :
  schemaErrors (construct now reqBody) = [] -> db !! _id = None ->
  createBug schemaErrors construct now _id reqBody db =
    (<[_id := construct now reqBody]> db,
     Responded (mkResponse 201 (BodyDoc _id (construct now reqBody)))).
Proof. intros Hs Hd. unfold createBug, save. by rewrite Hs, Hd. Qed.

Lemma createBug_duplicate (now : Z) (_id : ObjectId) (reqBody : gmap string Value)
    (db : gmap ObjectId (gmap string Value)) :
  schemaErrors (construct now reqBody) = [] -> is_Some (db !! _id) ->
  createBug schemaErrors construct now _id reqBody db = (db, Rejected DuplicateKeyError).
Proof. intros Hs [doc Hd]. unfold createBug, save. by rewrite Hs, Hd. Qed.

Lemma createBug_rejected (now : Z) (_id : ObjectId) (reqBody : gmap string Value)
    (db : gmap ObjectId (gmap string Value)) :
  schemaErrors (construct now reqBody) ≠ [] ->
  createBug schemaErrors construct now _id reqBody db =
    (db, Rejected (ValidationError (schemaErrors (construct now reqBody)))).
Proof.
  intros Hs. unfold createBug, save.
  by destruct (schemaErrors (construct now reqBody)).
Qed.

End ServerFacts.

(** The delete scenario of the specification: after [deleteBug] of an
    ObjectId, the list [getBugs] answers with holds no record of that
    id. *)
Lemma getBugs_after_deleteBug {ObjectId : Type} `{Countable ObjectId}
    (castObjectId : string -> option ObjectId) (id : string) (_id : ObjectId)
    (db : gmap ObjectId (gmap string Js.Value)) :
  castObjectId id = Some _id ->
  Server.body (Server.getBugs (Server.deleteBug castObjectId id db).1).2
    = Server.BodyDocs (map_to_list (delete _id db)) ∧
  ∀ doc, (_id, doc) ∉ map_to_list (delete _id db).
Proof.
  intros Hc. rewrite (deleteBug_cast castObjectId id _id db Hc).
  split; [done |].
  intros doc Hin. apply elem_of_map_to_list in Hin. by rewrite lookup_delete_eq in Hin.
Qed.

(** C1, as the code has it. When the id of the request is an ObjectId,
    [deleteBug] answers 200 with the confirmation whether or not a
    record has the id; afterwards no record has it and every other
    record is as before; when none had it the collection is unchanged,
    and a second delete of the same id is answered like the first.  When
    the id is no ObjectId the query is rejected: the collection is
    unchanged and no response is sent.  No response of [deleteBug] is a
    not-found error. *)
Theorem deleteBug_confirms_or_rejects {ObjectId : Type} `{Countable ObjectId}
    (castObjectId : string -> option ObjectId) (id : string)
    (db : gmap ObjectId (gmap string Js.Value)) :
  match castObjectId id with
  | Some _id =>
      (Server.deleteBug castObjectId id db).2
        = Server.Responded (Server.mkResponse 200 (Server.BodyMessage "Bug deleted")) ∧
      (Server.deleteBug castObjectId id db).1 !! _id = None ∧
      (∀ other, other ≠ _id ->
         (Server.deleteBug castObjectId id db).1 !! other = db !! other) ∧
      (db !! _id = None -> (Server.deleteBug castObjectId id db).1 = db) ∧
      Server.deleteBug castObjectId id (Server.deleteBug castObjectId id db).1
        = Server.deleteBug castObjectId id db
  | None =>
      Server.deleteBug castObjectId id db = (db, Server.Rejected (Server.CastError id))
  end ∧
  (∀ response, (Server.deleteBug castObjectId id db).2 = Server.Responded response ->
     Server.statusCode response = 200 ∧ Server.isNotFound response = false).
Proof.
  destruct (castObjectId id) as [_id|] eqn:Hc.
  - rewrite !(deleteBug_cast castObjectId id _id) by done. simpl.
    split; [split; [done | split; [apply lookup_delete_eq | split; [| split]]] |].
    + intros other Hne. by apply lookup_delete_ne.
    + apply delete_id.
    + f_equal. apply delete_id, lookup_delete_eq.
    + by intros response [= <-].
  - rewrite (deleteBug_rejected castObjectId id db Hc). by split.
Qed.

(** C1 fails on an id no record has, and on the second of two deletes:
    both are answered 200 with the confirmation, not with a
    not-found error. *)
Lemma deleteBug_absent_id_confirmed :
  Sample.castHex Sample.idA = Some Sample.idA ∧
  (∅ : gmap string (gmap string Js.Value)) !! Sample.idA = None ∧
  Sample.deleteBug Sample.idA ∅
    = (∅, Server.Responded (Server.mkResponse 200 (Server.BodyMessage "Bug deleted"))) ∧
  Sample.deleteBug Sample.idA
    (Sample.deleteBug Sample.idA {[ Sample.idA := Sample.docA ]}).1
    = (∅, Server.Responded (Server.mkResponse 200 (Server.BodyMessage "Bug deleted"))) ∧
  Server.isNotFound (Server.mkResponse (ObjectId := string) 200
                       (Server.BodyMessage "Bug deleted")) = false.
Proof. repeat split. Qed.



(** An id that is no ObjectId: both handlers leave the collection alone
    and send nothing. *)
Example controller_rejects_what_is_no_ObjectId :
  Sample.castHex "not-an-id" = None ∧
  Sample.deleteBug "not-an-id" {[ Sample.idA := Sample.docA ]}
    = ({[ Sample.idA := Sample.docA ]}, Server.Rejected (Server.CastError "not-an-id")) ∧
  Sample.updateBug 1700000300000 "not-an-id"
    {[ "status" := Js.VString "resolved" ]} {[ Sample.idA := Sample.docA ]}
    = ({[ Sample.idA := Sample.docA ]}, Server.Rejected (Server.CastError "not-an-id")).
Proof. repeat split. Qed.




(** C3, as the code has it. The constraints are those of the form:
    whenever its values violate one, submitting does not succeed,
    [onSubmit], which creates the bug, is not called, and the validation
    error that results has an entry for every field whose constraint is
    violated, not only for the first.  [createBug] itself checks
    nothing: it saves the document made of the request body and answers
    201 whenever the schema of the model accepts the document and its
    id is new; otherwise the save is rejected, nothing is stored and no
    response is sent.  No response of [createBug] is a 400. *)
Theorem create_validated_by_the_form_only
    {R ObjectId : Type} `{Countable ObjectId}
    (onSubmit : BugForm.BugFormData -> R) (values : gmap string Js.Value)
    (schemaErrors : gmap string Js.Value -> list string)
    (construct : Z -> gmap string Js.Value -> gmap string Js.Value)
    (now : Z) (_id : ObjectId) (reqBody : gmap string Js.Value)
    (db : gmap ObjectId (gmap string Js.Value)) :
  (∀ field, Spec.violates values field ->
     ∃ errors,
       BugForm.handleSubmit onSubmit values = BugForm.ValidationError errors ∧
       ∀ violated, Spec.violates values violated ->
         ∃ issue, In issue errors ∧ BugForm.path issue = [BugForm.Key violated]) ∧
  (schemaErrors (construct now reqBody) = [] -> db !! _id = None ->
   Server.createBug schemaErrors construct now _id reqBody db =
     (<[_id := construct now reqBody]> db,
      Server.Responded
        (Server.mkResponse 201 (Server.BodyDoc _id (construct now reqBody))))) ∧
  (schemaErrors (construct now reqBody) = [] -> is_Some (db !! _id) ->
   Server.createBug schemaErrors construct now _id reqBody db =
     (db, Server.Rejected Server.DuplicateKeyError)) ∧
  (schemaErrors (construct now reqBody) ≠ [] ->
   Server.createBug schemaErrors construct now _id reqBody db =
     (db, Server.Rejected (Server.ValidationError (schemaErrors (construct now reqBody))))) ∧
  (∀ response,
     (Server.createBug schemaErrors construct now _id reqBody db).2
       = Server.Responded response ->
     Server.statusCode response = 201 ∧ Server.isBadRequest response = false).
Proof.
  split; [intros field; apply handleSubmit_rejects_and_lists_every_violation |].
  split; [apply createBug_saved |].
  split; [apply createBug_duplicate |].
  split; [apply createBug_rejected |].
  intros response.
  destruct (createBug_cases schemaErrors construct now _id reqBody db)
    as [(_ & _ & ->) | [error ->]]; [| done].
  simpl. by intros [= <-].
Qed.

(** C3 fails on the controller: the body the test of the API posts, a
    title alone, violates the constraints of the description, the
    priority, the assignee, the reporter and the environment, and
    [createBug] answers it with 201 and the created document, as the
    test expects. *)
Lemma createBug_title_alone_is_created :
  Spec.violates Sample.testBody "description" ∧
  Spec.violates Sample.testBody "priority" ∧
  Spec.violates Sample.testBody "assignee" ∧
  Spec.violates Sample.testBody "reporter" ∧
  Spec.violates Sample.testBody "environment" ∧
  Sample.createBug 1700000000000 Sample.idA Sample.testBody ∅
    = ({[ Sample.idA := Server.newDocument 1700000000000 Sample.testBody ]},
       Server.Responded
         (Server.mkResponse 201
            (Server.BodyDoc Sample.idA
               (Server.newDocument 1700000000000 Sample.testBody)))) ∧
  Server.newDocument 1700000000000 Sample.testBody !! "title"
    = Some (Js.VString "Test Bug").
Proof.
  split; [right; left; by split |].
  split; [right; right; left; by split |].
  split; [right; right; right; left; by split |].
  split; [right; right; right; right; left; by split |].
  split; [right; right; right; right; right; by split |].
  split; reflexivity.
Qed.

(** * More properties of the sources *)

(** ** The tag editor of BugForm.jsx *)

Section TagFacts.
Import JsString BugFormState.

Lemma trimStart_idempotent (s : string) : trimStart (trimStart s) = trimStart s.
Proof.
  induction s as [|c s IH]; [done |]. simpl.
  destruct (isWhiteSpace c) eqn:Hc; [done |]. simpl. by rewrite Hc.
Qed.

Lemma trimEnd_idempotent (s : string) : trimEnd (trimEnd s) = trimEnd s.
Proof.
  induction s as [|c s IH]; [done |]. simpl.
  destruct (trimEnd s) as [|d t] eqn:Hr.
  - destruct (isWhiteSpace c) eqn:Hc; [done |]. simpl. by rewrite Hc.
  - change (trimEnd (String c (String d t))) with
      (match trimEnd (String d t) with
       | EmptyString => if isWhiteSpace c then EmptyString else String c EmptyString
       | String d' t' => String c (String d' t')
       end).
    by rewrite IH.
Qed.

(** Trimming the end keeps a first code unit that is not white space. *)
Lemma trimStart_trimEnd (s : string) :
  trimStart s = s -> trimStart (trimEnd s) = trimEnd s.
Proof.
  destruct s as [|c s]; [done |]. simpl.
  destruct (isWhiteSpace c) eqn:Hc.
  - intros H. exfalso.
    assert (Hlen : String.length (trimStart s) <= String.length s).
    { clear. induction s as [|d s IH]; simpl; [lia |].
      destruct (isWhiteSpace d); simpl; lia. }
    rewrite H in Hlen. simpl in Hlen. lia.
  - intros _. destruct (trimEnd s); simpl; by rewrite Hc.
Qed.

Lemma trim_idempotent (s : string) : trim (trim s) = trim s.
Proof.
  unfold trim.
  rewrite (trimStart_trimEnd (trimStart s)) by apply trimStart_idempotent.
  apply trimEnd_idempotent.
Qed.

Lemma includes_In (xs : list string) (x : string) : includes xs x = true ↔ In x xs.
Proof.
  unfold includes. rewrite existsb_exists. split.
  - intros (y & Hy & Heq). apply String.eqb_eq in Heq. by subst.
  - intros H. exists x. split; [done | apply String.eqb_refl].
Qed.

Lemma truthy_string_nonempty (s : string) : Js.truthy_string s = true ↔ s ≠ "".
Proof. by destruct s. Qed.

(** What [addTag] does: nothing, or the trimmed input is appended and
    the input is emptied. *)
Lemma addTag_cases (st : TagState) :
  (addTag st = st ∧ (trim (tagInput st) = "" ∨ In (trim (tagInput st)) (tags st))) ∨
  (addTag st = mkTagState "" (tags st ++ [trim (tagInput st)]) ∧
   trim (tagInput st) ≠ "" ∧ ¬ In (trim (tagInput st)) (tags st)).
Proof.
  unfold addTag.
  destruct (Js.truthy_string (trim (tagInput st))) eqn:Ht;
    destruct (includes (tags st) (trim (tagInput st))) eqn:Hi; simpl.
  - left. split; [done | right]. by apply includes_In.
  - right. split; [done | split].
    + by apply truthy_string_nonempty.
    + rewrite <- includes_In. by rewrite Hi.
  - left. split; [done | left]. by destruct (trim (tagInput st)).
  - left. split; [done | left]. by destruct (trim (tagInput st)).
Qed.

Lemma removeTag_In (tag t : string) (st : TagState) :
  In t (tags (removeTag tag st)) ↔ In t (tags st) ∧ t ≠ tag.
Proof.
  unfold removeTag. simpl. rewrite filter_In, negb_true_iff.
  split; intros [H1 H2]; (split; [done |]).
  - intros ->. by rewrite String.eqb_refl in H2.
  - by apply String.eqb_neq.
Qed.

Lemma removeTag_absent (tag : string) (l : list string) :
  ¬ In tag l -> List.filter (fun t => negb (String.eqb t tag)) l = l.
Proof.
  induction l as [|x l IH]; [done |]. intros Hn. simpl.
  destruct (String.eqb_spec x tag) as [-> | Hne]; simpl.
  - exfalso. apply Hn. by left.
  - f_equal. apply IH. intros H. apply Hn. by right.
Qed.

Lemma NoDup_filter_list {A} (f : A -> bool) (l : list A) :
  NoDup l -> NoDup (List.filter f l).
Proof. intros H. eapply sublist_NoDup; [exact H | apply filter_sublist]. Qed.

End TagFacts.

(** X1. Whatever the user types, adds and removes in the tag editor:
    a list of tags without duplicates stays without duplicates, and
    every tag of the result that was not there at the start is not
    empty and carries no white space at its ends. *)
Theorem tag_editor_keeps_tags_distinct_and_trimmed
    (actions : list BugFormState.TagAction) (st : BugFormState.TagState) :
  (NoDup (BugFormState.tags st) ->
   NoDup (BugFormState.tags (BugFormState.run actions st))) ∧
  (∀ tag, In tag (BugFormState.tags (BugFormState.run actions st)) ->
          In tag (BugFormState.tags st) ∨ (tag ≠ "" ∧ JsString.trim tag = tag)).
Proof.
  revert st. induction actions as [|a actions IH]; intros st.
  - split; [done | by left].
  - change (BugFormState.run (a :: actions) st)
      with (BugFormState.run actions (BugFormState.act a st)).
    destruct (IH (BugFormState.act a st)) as [IHd IHt].
    assert (Hstep : (NoDup (BugFormState.tags st) ->
                     NoDup (BugFormState.tags (BugFormState.act a st))) ∧
                    ∀ tag, In tag (BugFormState.tags (BugFormState.act a st)) ->
                           In tag (BugFormState.tags st) ∨
                           (tag ≠ "" ∧ JsString.trim tag = tag)).
    { destruct a as [text | | removed]; simpl.
      - split; [done | by left].
      - destruct (addTag_cases st) as [[-> _] | (-> & Hne & Hnin)]; simpl.
        + split; [done | by left].
        + split.
          * intros Hd. apply NoDup_app. split; [done | split].
            -- intros x Hx Hx'. apply list_elem_of_In in Hx.
               apply list_elem_of_singleton in Hx'. by subst.
            -- apply NoDup_singleton.
          * intros tag Hin. apply in_app_iff in Hin as [Hin | [<- | []]]; [by left |].
            right. split; [done | apply trim_idempotent].
      - split.
        + apply NoDup_filter_list.
        + intros tag Hin. apply removeTag_In in Hin. left. tauto. }
    destruct Hstep as [Hd Ht]. split.
    + intros H. by apply IHd, Hd.
    + intros tag Hin. destruct (IHt tag Hin) as [H | H]; [by apply Ht | by right].
Qed.

(** X2. [removeTag] takes every occurrence of the tag away and leaves
    the other tags in their order; on a tag that is not there it changes
    nothing; and it undoes [addTag]: removing the trimmed input after
    adding it gives the tags back when they did not hold it before. *)
Theorem removeTag_removes_and_undoes_addTag (tag : string) (st : BugFormState.TagState) :
  ¬ In tag (BugFormState.tags (BugFormState.removeTag tag st)) ∧
  BugFormState.tags (BugFormState.removeTag tag st) `sublist_of` BugFormState.tags st ∧
  (∀ other, other ≠ tag ->
     (In other (BugFormState.tags (BugFormState.removeTag tag st)) ↔
      In other (BugFormState.tags st))) ∧
  (¬ In tag (BugFormState.tags st) -> BugFormState.removeTag tag st = st) ∧
  (¬ In (JsString.trim (BugFormState.tagInput st)) (BugFormState.tags st) ->
   BugFormState.tags
     (BugFormState.removeTag (JsString.trim (BugFormState.tagInput st))
        (BugFormState.addTag st))
   = BugFormState.tags st).
Proof.
  split; [| split; [| split; [| split]]].
  - rewrite removeTag_In. tauto.
  - apply filter_sublist.
  - intros other Hne. rewrite removeTag_In. tauto.
  - intros Hn. destruct st as [input l]. unfold BugFormState.removeTag. simpl.
    f_equal. by apply removeTag_absent.
  - intros Hn. destruct (addTag_cases st) as [[-> _] | (-> & Hne & _)].
    + unfold BugFormState.removeTag. simpl. by apply removeTag_absent.
    + unfold BugFormState.removeTag. simpl. rewrite List.filter_app. simpl.
      rewrite String.eqb_refl. simpl. rewrite app_nil_r. by apply removeTag_absent.
Qed.

(** ** The schema and the defaults of BugForm.jsx *)

Section SchemaFacts.
Import Js BugForm.

Lemma z_string_range_ok (lo hi : nat) (m1 m2 : string) (p : list PathItem) (v : Value)
    (s : string) :
  z_string [min lo m1; max hi m2] p v = ParseOk s ↔
  v = VString s ∧ lo <= String.length s <= hi.
Proof.
  unfold z_string, min, max.
  destruct v as [| | | |s'| |]; try (split; [discriminate | by intros [? _]]).
  simpl.
  destruct (Nat.ltb_spec (String.length s') lo), (Nat.ltb_spec hi (String.length s'));
    simpl; split; try discriminate; try (intros [[= ->] ?]; lia).
  - intros [= ->]. split; [done | lia].
  - by intros [[= ->] _].
Qed.

Lemma z_string_required_ok (msg : string) (p : list PathItem) (v : Value) (s : string) :
  z_string [min 1 msg] p v = ParseOk s ↔ v = VString s ∧ s ≠ "".
Proof.
  unfold z_string, min.
  destruct v as [| | | |s'| |]; try (split; [discriminate | by intros [? _]]).
  destruct s' as [|c s']; simpl.
  - split; [discriminate | by intros [[= <-] ?]].
  - split; [by intros [= <-] | by intros [[= ->] _]].
Qed.

Lemma z_string_any_ok (p : list PathItem) (v : Value) (s : string) :
  z_string [] p v = ParseOk s ↔ v = VString s.
Proof.
  unfold z_string.
  destruct v as [| | | |s'| |]; try (split; discriminate).
  simpl. split; [by intros [= ->] | by intros [= ->]].
Qed.

Lemma priority_of_literal_ok (s : string) (prio : BugPriority) :
  priority_of_literal s = Some prio ↔ s = priority_literal prio.
Proof.
  split.
  - intros H. apply find_some in H as [_ H]. apply String.eqb_eq in H. by subst.
  - intros ->. by destruct prio.
Qed.

Lemma z_enum_priority_ok (p : list PathItem) (v : Value) (prio : BugPriority) :
  z_enum_priority p v = ParseOk prio ↔ v = VString (priority_literal prio).
Proof.
  unfold z_enum_priority.
  destruct v as [| | | |s| |]; try (split; discriminate).
  destruct (priority_of_literal s) as [q|] eqn:E.
  - apply priority_of_literal_ok in E as ->. split.
    + by intros [= ->].
    + intros [= H]. f_equal. by destruct q, prio.
  - split; [discriminate |]. intros [= ->].
    by rewrite (proj2 (priority_of_literal_ok _ prio) eq_refl) in E.
Qed.

Lemma z_boolean_ok (p : list PathItem) (v : Value) (b : bool) :
  z_boolean p v = ParseOk b ↔ v = VBool b.
Proof.
  destruct v; simpl; try (split; discriminate).
  split; [by intros [= ->] | by intros [= ->]].
Qed.

Lemma stepsToReproduceSchema_ok (p : list PathItem) (v : Value) (o : option string) :
  stepsToReproduceSchema p v = ParseOk o ↔
  v = match o with None => VUndefined | Some s => VString s end.
Proof.
  unfold stepsToReproduceSchema, z_optional.
  destruct v as [| | | |s| |]; simpl;
    try (split; [discriminate | by destruct o]).
  - split; [by intros [= <-] | by destruct o].
  - split; [by intros [= <-] | destruct o; [by intros [= ->] | discriminate]].
Qed.

Lemma map_VString_inj (a b : list string) :
  List.map VString a = List.map VString b -> a = b.
Proof.
  revert b. induction a as [|x a IH]; intros [|y b] H; try discriminate; [done |].
  simpl in H. injection H as -> H. f_equal. by apply IH.
Qed.

Lemma parseItems_strings_ok (p : list PathItem) (i : nat) (items : list Value)
    (l : list string) :
  parseItems (z_string []) p i items = ParseOk l ↔ items = List.map VString l.
Proof.
  revert i l. induction items as [|v items IH]; intros i l; simpl.
  - split; [by intros [= <-] | by destruct l].
  - destruct (z_string [] (p ++ [Idx i]) v) as [s|issues] eqn:Ev.
    + apply z_string_any_ok in Ev as ->.
      destruct (parseItems (z_string []) p (S i) items) as [xs|issues] eqn:Er.
      * apply IH in Er as ->. split; [by intros [= <-] |].
        intros H. f_equal. symmetry. by apply map_VString_inj.
      * split; [discriminate |]. destruct l as [|x l]; [discriminate |].
        simpl. intros [= _ H]. apply (IH (S i)) in H. congruence.
    + split; [by destruct (parseItems (z_string []) p (S i) items) |].
      destruct l as [|x l]; [discriminate |]. simpl. intros [= -> _].
      by rewrite (proj2 (z_string_any_ok _ _ x) eq_refl) in Ev.
Qed.

Lemma tagsSchema_ok (p : list PathItem) (v : Value) (l : list string) :
  tagsSchema p v = ParseOk l ↔
  (v = VUndefined ∧ l = []) ∨ v = VArray (List.map VString l).
Proof.
  unfold tagsSchema, z_default, z_array.
  destruct v as [| | | |s| |items]; simpl;
    try (split; [discriminate | by intros [[? _] | ?]]).
  - split; [intros [= <-]; by left | intros [[_ ->] | ?]; done].
  - rewrite parseItems_strings_ok. split.
    + intros ->. by right.
    + by intros [[? _] | [= ->]].
Qed.

Lemma get_insert_ne (values : gmap string Value) (k k' : string) (v : Value) :
  k ≠ k' -> get (<[k := v]> values) k' = get values k'.
Proof. intros H. unfold get. by rewrite lookup_insert_ne. Qed.

(** The issues [zodResolver] keeps are on paths not seen before, and
    each is the first issue raised on its path. *)
Lemma toFieldErrors_first (seen : list (list PathItem)) (issues : list ZodIssue)
    (kept : ZodIssue) :
  In kept (toFieldErrors seen issues) ->
  (path kept ∉ seen) ∧
  ∃ before after, issues = before ++ kept :: after ∧
                  ∀ issue, In issue before -> path issue ≠ path kept.
Proof.
  revert seen. induction issues as [|h rest IH]; intros seen Hin; [done |].
  simpl in Hin. case_bool_decide as Hh.
  - destruct (IH seen Hin) as (Hs & before & after & -> & Hb).
    split; [done |]. exists (h :: before), after. split; [done |].
    intros issue [<- | Hi]; [| by apply Hb]. intros Heq. by rewrite Heq in Hh.
  - destruct Hin as [<- | Hin].
    + split; [done |]. by exists [], rest.
    + destruct (IH (path h :: seen) Hin) as (Hs & before & after & -> & Hb).
      apply not_elem_of_cons in Hs as [Hne Hs].
      split; [done |]. exists (h :: before), after. split; [done |].
      intros issue [<- | Hi]; [done | by apply Hb].
Qed.

Lemma toFieldErrors_sublist (seen : list (list PathItem)) (issues : list ZodIssue) :
  toFieldErrors seen issues `sublist_of` issues.
Proof.
  revert seen. induction issues as [|h rest IH]; intros seen; simpl; [constructor |].
  case_bool_decide; by constructor.
Qed.

Lemma toFieldErrors_NoDup (seen : list (list PathItem)) (issues : list ZodIssue) :
  NoDup (List.map path (toFieldErrors seen issues)).
Proof.
  revert seen. induction issues as [|h rest IH]; intros seen; simpl; [constructor |].
  case_bool_decide as Hh; [apply IH |].
  simpl. constructor; [| apply IH].
  intros Hin. apply list_elem_of_In, in_map_iff in Hin as (kept & Hp & Hk).
  apply toFieldErrors_first in Hk as [Hs _]. rewrite Hp in Hs.
  apply Hs. by left.
Qed.

End SchemaFacts.

(** X3. The schema accepts exactly the well-formed values and hands
    them on as they are: parsing succeeds with [data] if and only if
    title, description, assignee, reporter and environment are the
    strings of [data] within their bounds, the priority is the literal
    of [data]'s priority, [reproducible] is its boolean, the steps are
    absent or its string, and the tags are absent (then [data] has none)
    or the array of its tags.  Nothing is trimmed, coerced or
    defaulted but the tags. *)
Theorem bugFormSchema_accepts_exactly
    (values : gmap string Js.Value) (data : BugForm.BugFormData) :
  BugForm.bugFormSchema values = BugForm.ParseOk data ↔
  (BugForm.get values "title" = Js.VString (BugForm.title data) ∧
   1 <= String.length (BugForm.title data) <= 100) ∧
  (BugForm.get values "description" = Js.VString (BugForm.description data) ∧
   10 <= String.length (BugForm.description data) <= 1000) ∧
  BugForm.get values "priority" = Js.VString (priority_literal (BugForm.priority data)) ∧
  (BugForm.get values "assignee" = Js.VString (BugForm.assignee data) ∧
   BugForm.assignee data ≠ "") ∧
  (BugForm.get values "reporter" = Js.VString (BugForm.reporter data) ∧
   BugForm.reporter data ≠ "") ∧
  (BugForm.get values "environment" = Js.VString (BugForm.environment data) ∧
   BugForm.environment data ≠ "") ∧
  BugForm.get values "reproducible" = Js.VBool (BugForm.reproducible data) ∧
  BugForm.get values "stepsToReproduce" =
    match BugForm.stepsToReproduce data with
    | None => Js.VUndefined
    | Some steps => Js.VString steps
    end ∧
  ((BugForm.get values "tags" = Js.VUndefined ∧ BugForm.tags data = []) ∨
   BugForm.get values "tags" = Js.VArray (List.map Js.VString (BugForm.tags data))).
Proof.
  destruct data as [t d p a r e b s g]. cbn [BugForm.title BugForm.description
    BugForm.priority BugForm.assignee BugForm.reporter BugForm.environment
    BugForm.reproducible BugForm.stepsToReproduce BugForm.tags].
  rewrite <- (z_string_range_ok 1 100 "Title is required"
                "Title must be less than 100 characters" [BugForm.Key "title"]).
  rewrite <- (z_string_range_ok 10 1000 "Description must be at least 10 characters"
                "Description must be less than 1000 characters" [BugForm.Key "description"]).
  rewrite <- (z_enum_priority_ok [BugForm.Key "priority"]).
  rewrite <- (z_string_required_ok "Assignee is required" [BugForm.Key "assignee"]).
  rewrite <- (z_string_required_ok "Reporter is required" [BugForm.Key "reporter"]).
  rewrite <- (z_string_required_ok "Environment is required" [BugForm.Key "environment"]).
  rewrite <- (z_boolean_ok [BugForm.Key "reproducible"]).
  rewrite <- (stepsToReproduceSchema_ok [BugForm.Key "stepsToReproduce"]).
  rewrite <- (tagsSchema_ok [BugForm.Key "tags"]).
  unfold BugForm.bugFormSchema.
  change (BugForm.z_string [BugForm.min 1 "Title is required";
            BugForm.max 100 "Title must be less than 100 characters"])
    with BugForm.titleSchema.
  change (BugForm.z_string [BugForm.min 10 "Description must be at least 10 characters";
            BugForm.max 1000 "Description must be less than 1000 characters"])
    with BugForm.descriptionSchema.
  change (BugForm.z_string [BugForm.min 1 "Assignee is required"])
    with BugForm.assigneeSchema.
  change (BugForm.z_string [BugForm.min 1 "Reporter is required"])
    with BugForm.reporterSchema.
  change (BugForm.z_string [BugForm.min 1 "Environment is required"])
    with BugForm.environmentSchema.
  destruct (BugForm.titleSchema _ _); [| split; [done | by intros [? _]]].
  destruct (BugForm.descriptionSchema _ _); [| split; [done | by intros (_ & ? & _)]].
  destruct (BugForm.z_enum_priority _ _); [| split; [done | by intros (_ & _ & ? & _)]].
  destruct (BugForm.assigneeSchema _ _); [| split; [done | by intros (_ & _ & _ & ? & _)]].
  destruct (BugForm.reporterSchema _ _);
    [| split; [done | by intros (_ & _ & _ & _ & ? & _)]].
  destruct (BugForm.environmentSchema _ _);
    [| split; [done | by intros (_ & _ & _ & _ & _ & ? & _)]].
  destruct (BugForm.z_boolean _ _);
    [| split; [done | by intros (_ & _ & _ & _ & _ & _ & ? & _)]].
  destruct (BugForm.stepsToReproduceSchema _ _);
    [| split; [done | by intros (_ & _ & _ & _ & _ & _ & _ & ? & _)]].
  destruct (BugForm.tagsSchema _ _);
    [| split; [done | by intros (_ & _ & _ & _ & _ & _ & _ & _ & ?)]].
  split.
  - intros [= -> -> -> -> -> -> -> -> ->]. by repeat split.
  - intros ([= ->] & [= ->] & [= ->] & [= ->] & [= ->] & [= ->] & [= ->] & [= ->] & [= ->]).
    done.
Qed.

(** X4. A key that the schema does not name changes nothing: with or
    without it the parse gives the same data or the same issues. *)
Theorem bugFormSchema_ignores_unknown_keys
    (values : gmap string Js.Value) (key : string) (v : Js.Value) :
  JsString.includes BugFormState.schemaKeys key = false ->
  BugForm.bugFormSchema (<[key := v]> values) = BugForm.bugFormSchema values.
Proof.
  intros H. unfold JsString.includes, BugFormState.schemaKeys in H. cbn [existsb] in H.
  repeat (apply orb_false_iff in H as [?%String.eqb_neq H]).
  unfold BugForm.bugFormSchema. by rewrite !get_insert_ne by done.
Qed.

Lemma bugFormSchema_ignores_unknown_keys_witness :
  BugForm.bugFormSchema (<["status" := Js.VString "closed"]> Sample.formA)
  = BugForm.bugFormSchema Sample.formA.
Proof.
  apply (bugFormSchema_ignores_unknown_keys Sample.formA "status" (Js.VString "closed")).
  reflexivity.
Defined.

(** X5. The errors the form shows: at most one per path, each the first
    issue the schema raised on its path, in the order the schema raised
    them, and no path with an issue is left without its error. *)
Theorem toFieldErrors_first_issue_per_path (issues : list BugForm.ZodIssue) :
  NoDup (List.map BugForm.path (BugForm.toFieldErrors [] issues)) ∧
  BugForm.toFieldErrors [] issues `sublist_of` issues ∧
  (∀ kept, In kept (BugForm.toFieldErrors [] issues) ->
     ∃ before after, issues = before ++ kept :: after ∧
       ∀ issue, In issue before -> BugForm.path issue ≠ BugForm.path kept) ∧
  (∀ issue, In issue issues ->
     ∃ kept, In kept (BugForm.toFieldErrors [] issues) ∧
             BugForm.path kept = BugForm.path issue).
Proof.
  split; [apply toFieldErrors_NoDup | split; [apply toFieldErrors_sublist | split]].
  - intros kept Hk. by apply toFieldErrors_first in Hk as [_ ?].
  - intros issue Hi. apply toFieldErrors_keeps_path; [done | apply not_elem_of_nil].
Qed.

(** X6. The form as it opens, submitted untouched: it passes exactly
    when the title, description, assignee, reporter and environment it
    was opened with are within their bounds, and then [onSubmit] gets
    the values it was opened with, the priority defaulting to medium,
    [reproducible] to false, the steps to the empty string and the tags
    to none.  So a new form cannot be submitted untouched, and the
    priority, the flag, the steps and the tags never block an edit. *)
Theorem defaultValues_submit_untouched
    {R : Type} (onSubmit : BugForm.BugFormData -> R)
    (initialData : option BugFormState.PartialBug) :
  (1 <= String.length (BugFormState.orDefault initialData BugFormState.p_title "") <= 100 ->
   10 <= String.length
           (BugFormState.orDefault initialData BugFormState.p_description "") <= 1000 ->
   BugFormState.orDefault initialData BugFormState.p_assignee "" ≠ "" ->
   BugFormState.orDefault initialData BugFormState.p_reporter "" ≠ "" ->
   BugFormState.orDefault initialData BugFormState.p_environment "" ≠ "" ->
   BugForm.handleSubmit onSubmit (BugFormState.defaultValues initialData) =
   BugForm.Submitted
     (onSubmit
        (BugForm.mkFormData
           (BugFormState.orDefault initialData BugFormState.p_title "")
           (BugFormState.orDefault initialData BugFormState.p_description "")
           (BugFormState.orDefault initialData BugFormState.p_priority Medium)
           (BugFormState.orDefault initialData BugFormState.p_assignee "")
           (BugFormState.orDefault initialData BugFormState.p_reporter "")
           (BugFormState.orDefault initialData BugFormState.p_environment "")
           (BugFormState.orDefault initialData BugFormState.p_reproducible false)
           (Some (BugFormState.orDefault initialData BugFormState.p_stepsToReproduce ""))
           (BugFormState.orDefault initialData BugFormState.p_tags [])))) ∧
  (∀ data, BugForm.bugFormSchema (BugFormState.defaultValues initialData)
           = BugForm.ParseOk data ->
     (1 <= String.length (BugFormState.orDefault initialData BugFormState.p_title "")
      <= 100) ∧
     (10 <= String.length (BugFormState.orDefault initialData BugFormState.p_description "")
      <= 1000) ∧
     BugFormState.orDefault initialData BugFormState.p_assignee "" ≠ "" ∧
     BugFormState.orDefault initialData BugFormState.p_reporter "" ≠ "" ∧
     BugFormState.orDefault initialData BugFormState.p_environment "" ≠ "") ∧
  (∀ result, BugForm.handleSubmit onSubmit (BugFormState.defaultValues None)
             ≠ BugForm.Submitted result).
Proof.
  split; [| split].
  - intros Ht Hd Ha Hr He. unfold BugForm.handleSubmit.
    erewrite (proj2 (bugFormSchema_accepts_exactly _ _)); [done |].
    cbn [BugForm.title BugForm.description BugForm.priority BugForm.assignee
         BugForm.reporter BugForm.environment BugForm.reproducible
         BugForm.stepsToReproduce BugForm.tags].
    repeat split; try done; try lia. by right.
  - intros data H. apply bugFormSchema_accepts_exactly in H.
    destruct H as ([Ht Htl] & [Hd Hdl] & _ & [Ha Hal] & [Hr Hrl] & [He Hel] & _).
    change (BugForm.get (BugFormState.defaultValues initialData) "title")
      with (Js.VString (BugFormState.orDefault initialData BugFormState.p_title "")) in Ht.
    change (BugForm.get (BugFormState.defaultValues initialData) "description")
      with (Js.VString (BugFormState.orDefault initialData BugFormState.p_description ""))
      in Hd.
    change (BugForm.get (BugFormState.defaultValues initialData) "assignee")
      with (Js.VString (BugFormState.orDefault initialData BugFormState.p_assignee "")) in Ha.
    change (BugForm.get (BugFormState.defaultValues initialData) "reporter")
      with (Js.VString (BugFormState.orDefault initialData BugFormState.p_reporter "")) in Hr.
    change (BugForm.get (BugFormState.defaultValues initialData) "environment")
      with (Js.VString (BugFormState.orDefault initialData BugFormState.p_environment ""))
      in He.
    injection Ht as ->. injection Hd as ->. injection Ha as ->. injection Hr as ->.
    injection He as ->. done.
  - intros result. by vm_compute.
Qed.

(** ** The search box, the handlers and the list of index.jsx *)

Section IndexPageFacts.

Lemma sublist_map {A B} (f : A -> B) (k l : list A) :
  k `sublist_of` l -> List.map f k `sublist_of` List.map f l.
Proof. induction 1; simpl; by constructor. Qed.

Lemma toLowerCase_empty (s : string) : Js.toLowerCase s = "" ↔ s = "".
Proof. by destruct s. Qed.

Lemma truthy_string_toLowerCase (s : string) :
  Js.truthy_string (Js.toLowerCase s) = Js.truthy_string s.
Proof. by destruct s. Qed.

End IndexPageFacts.

(** X8. The case of the search term does not matter: two terms that
    are equal once in lower case show the same bugs. *)
Theorem search_term_case_is_irrelevant
    (filterBugs : Index.BugFilters -> list Bug) (term term' : string)
    (filters : Index.BugFilters) :
  Js.toLowerCase term = Js.toLowerCase term' ->
  Index.filteredBugsOver filterBugs term filters
  = Index.filteredBugsOver filterBugs term' filters.
Proof.
  intros H. unfold Index.filteredBugsOver.
  rewrite <- (truthy_string_toLowerCase term), <- (truthy_string_toLowerCase term'), H.
  destruct (Js.truthy_string (Js.toLowerCase term')); [| done].
  apply filter_ext. intros bug. unfold Index.matchesSearch. by rewrite H.
Qed.

Lemma search_term_case_is_irrelevant_witness :
  Index.filteredBugsOver (Index.filterBugs [Sample.bugA; Sample.bugB]) "CRASH on" Index.noFilters
  = Index.filteredBugsOver (Index.filterBugs [Sample.bugA; Sample.bugB]) "crash ON"
      Index.noFilters.
Proof.
  apply (search_term_case_is_irrelevant
           (Index.filterBugs [Sample.bugA; Sample.bugB]) "CRASH on" "crash ON").
  reflexivity.
Defined.

(** X9. The Clear button is there exactly when the search term is not
    empty or a criterion holds a truthy value: a status, a priority, an
    assignee that is not the empty string, or [reproducible] set to
    true.  [clearFilters] empties the term and the criteria and touches
    nothing else; after it the button is gone and the list is what
    [filterBugs] gives for no criteria, unsearched. *)
Theorem clearFilters_resets_the_view
    (filterBugs : Index.BugFilters -> list Bug) (st : IndexPage.State) :
  (IndexPage.showClear st = true ↔
   IndexPage.searchTerm st ≠ "" ∨
   is_Some (Index.f_status (IndexPage.filters st)) ∨
   is_Some (Index.f_priority (IndexPage.filters st)) ∨
   (∃ a, Index.f_assignee (IndexPage.filters st) = Some a ∧ a ≠ "") ∨
   Index.f_reproducible (IndexPage.filters st) = Some true) ∧
  IndexPage.showClear (IndexPage.clearFilters st) = false ∧
  IndexPage.isFormOpen (IndexPage.clearFilters st) = IndexPage.isFormOpen st ∧
  IndexPage.editingBug (IndexPage.clearFilters st) = IndexPage.editingBug st ∧
  Index.filteredBugsOver filterBugs
    (IndexPage.searchTerm (IndexPage.clearFilters st))
    (IndexPage.filters (IndexPage.clearFilters st))
  = filterBugs Index.noFilters.
Proof.
  split; [| by repeat split].
  unfold IndexPage.showClear, IndexPage.truthyFilters.
  destruct st as [term [fs fp fa fr] open editing]. simpl.
  rewrite !orb_true_iff, truthy_string_nonempty. split.
  - intros [H | [[[H | H] | H] | H]].
    + by left.
    + destruct fs; [right; left; by eexists | done].
    + destruct fp; [right; right; left; by eexists | done].
    + destruct fa as [a|]; [| done]. right; right; right; left.
      exists a. split; [done | by apply truthy_string_nonempty].
    + destruct fr as [[|]|]; try done. by repeat right.
  - intros [H | [[s ->] | [[p ->] | [(a & -> & Ha) | ->]]]].
    + by left.
    + right; left; left; left. by destruct s.
    + right; left; left; right. by destruct p.
    + right; left; right. by apply truthy_string_nonempty.
    + by repeat right.
Qed.

(** X10. The handlers of the page and the hook: [handleUpdateBug] calls
    nothing and changes nothing while no bug is being edited; after
    [handleEditBug] it makes exactly one call, [updateBug] with the id
    of the bug under edit and the data of the form, and ends the edit
    when that call resolves; when an awaited call rejects, the form or
    the edit stays open; and no handler changes the search term or the
    criteria. *)
Theorem index_handlers_calls_and_frame
    (st : IndexPage.State) (bug : Bug) (data : BugForm.BugFormData)
    (bugId : string) (status : BugStatus) (resolves : bool) :
  (IndexPage.editingBug st = None ->
   IndexPage.handleUpdateBug data resolves st = ([], st)) ∧
  IndexPage.handleUpdateBug data true (IndexPage.handleEditBug bug st).2
    = ([IndexPage.UpdateBug (id bug) (IndexPage.PatchForm data)],
       IndexPage.mkState (IndexPage.searchTerm st) (IndexPage.filters st)
         (IndexPage.isFormOpen st) None) ∧
  (IndexPage.handleUpdateBug data false (IndexPage.handleEditBug bug st).2).2
    = (IndexPage.handleEditBug bug st).2 ∧
  (IndexPage.handleCreateBug data false st).2 = st ∧
  IndexPage.isFormOpen (IndexPage.handleCreateBug data true st).2 = false ∧
  (∀ after,
     In after [(IndexPage.handleCreateBug data resolves st).2;
               (IndexPage.handleUpdateBug data resolves st).2;
               (IndexPage.handleStatusChange bugId status st).2;
               (IndexPage.handleEditBug bug st).2;
               (IndexPage.handleDeleteBug bugId st).2] ->
     IndexPage.searchTerm after = IndexPage.searchTerm st ∧
     IndexPage.filters after = IndexPage.filters st).
Proof.
  split; [| split; [done | split; [done | split; [done | split; [done |]]]]].
  - intros H. unfold IndexPage.handleUpdateBug. by rewrite H.
  - intros after Hin. unfold IndexPage.handleCreateBug, IndexPage.handleUpdateBug in Hin.
    simpl in Hin.
    destruct resolves, (IndexPage.editingBug st);
      destruct Hin as [<- | [<- | [<- | [<- | [<- | []]]]]]; done.
Qed.

(** X11. The list under the search bar: while loading, three skeletons;
    otherwise one card for each shown bug, in order and keyed by its id,
    when some bug is shown, and a message when none is.  For a shown
    list that is a subsequence of the collection the message is "No
    bugs reported yet" exactly when the collection is empty, and the
    keys of the cards are distinct whenever the ids of the collection
    are. *)
Theorem bugList_cards_and_messages (bugs shown : list Bug) :
  shown `sublist_of` bugs ->
  IndexPage.bugList true bugs shown = IndexPage.Skeletons 3 ∧
  (shown ≠ [] ->
   IndexPage.bugList false bugs shown = IndexPage.Cards (List.map id shown) shown) ∧
  (bugs = [] ↔
   IndexPage.bugList false bugs shown =
   IndexPage.EmptyMessage "No bugs reported yet"
     "Get started by reporting your first bug") ∧
  (bugs ≠ [] ∧ shown = [] ↔
   IndexPage.bugList false bugs shown =
   IndexPage.EmptyMessage "No bugs match your search"
     "Try adjusting your search terms or filters") ∧
  (NoDup (List.map id bugs) -> NoDup (List.map id shown)).
Proof.
  intros Hsub. split; [done |]. unfold IndexPage.bugList.
  split; [| split; [| split]].
  - intros H. by destruct shown.
  - split.
    + intros ->. apply sublist_nil_r in Hsub as ->. done.
    + destruct shown, bugs; done.
  - split.
    + intros [Hb ->]. by destruct bugs.
    + destruct shown, bugs; done.
  - intros Hd. eapply sublist_NoDup; [exact Hd |]. by apply sublist_map.
Qed.

Lemma bugList_cards_and_messages_witness :
  IndexPage.bugList true [Sample.bugA; Sample.bugB] [Sample.bugB] = IndexPage.Skeletons 3 ∧
  ([Sample.bugB] ≠ [] ->
   IndexPage.bugList false [Sample.bugA; Sample.bugB] [Sample.bugB]
   = IndexPage.Cards (List.map id [Sample.bugB]) [Sample.bugB]) ∧
  ([Sample.bugA; Sample.bugB] = [] ↔
   IndexPage.bugList false [Sample.bugA; Sample.bugB] [Sample.bugB] =
   IndexPage.EmptyMessage "No bugs reported yet"
     "Get started by reporting your first bug") ∧
  ([Sample.bugA; Sample.bugB] ≠ [] ∧ [Sample.bugB] = [] ↔
   IndexPage.bugList false [Sample.bugA; Sample.bugB] [Sample.bugB] =
   IndexPage.EmptyMessage "No bugs match your search"
     "Try adjusting your search terms or filters") ∧
  (NoDup (List.map id [Sample.bugA; Sample.bugB]) -> NoDup (List.map id [Sample.bugB])).
Proof.
  apply (bugList_cards_and_messages [Sample.bugA; Sample.bugB] [Sample.bugB]).
  apply sublist_cons, sublist_skip, sublist_nil.
Defined.

(** ** More on BugStats.jsx *)

Section MoreStatsFacts.
Local Open Scope Z_scope.

Lemma filter_length_Permutation {A} (f : A -> bool) (l l' : list A) :
  l ≡ₚ l' -> length (List.filter f l) = length (List.filter f l').
Proof.
  induction 1 as [|x l l' _ IH|x y l|l l' l'' _ IH1 _ IH2]; simpl.
  - done.
  - destruct (f x); simpl; congruence.
  - destruct (f x), (f y); done.
  - congruence.
Qed.

Lemma filter_length_all {A} (f : A -> bool) (l : list A) :
  (∀ x, In x l -> f x = true) -> length (List.filter f l) = length l.
Proof.
  induction l as [|x l IH]; intros H; simpl; [done |].
  rewrite (H x) by (by left). simpl. f_equal. apply IH. intros y Hy. apply H. by right.
Qed.

Lemma filter_length_none {A} (f : A -> bool) (l : list A) :
  (∀ x, In x l -> f x = false) -> length (List.filter f l) = 0%nat.
Proof.
  induction l as [|x l IH]; intros H; simpl; [done |].
  rewrite (H x) by (by left). apply IH. intros y Hy. apply H. by right.
Qed.

(** A float divided by itself is 1. *)
Lemma SFdiv_self (m : positive) (e : Z) :
  2 ^ 52 <= Z.pos m < 2 ^ 53 ->
  SFdiv prec emax (S754_finite false m e) (S754_finite false m e)
  = S754_finite false 4503599627370496 (-52).
Proof.
  intros Hm.
  assert (Hd : Zdigits2 (Z.pos m) = 53).
  { pose proof (Zdigits2_le (Z.pos m) 53 ltac:(lia) ltac:(lia) ltac:(lia)).
    pose proof (Zdigits2_gt (Z.pos m) 52 ltac:(lia) ltac:(lia)). lia. }
  assert (Hcore : SFdiv_core_binary prec emax (Z.pos m) e (Z.pos m) e
                  = (2 ^ 53, -53, loc_Exact)).
  { unfold SFdiv_core_binary. rewrite Hd.
    replace (53 + e - (53 + e)) with 0 by lia. replace (e - e) with 0 by lia.
    change (Z.min (fexp prec emax 0) 0) with (-53). change (0 - -53) with 53.
    cbv iota. rewrite Z.shiftl_mul_pow2 by lia.
    pose proof (Z_div_mod (Z.pos m * 2 ^ 53) (Z.pos m) ltac:(lia)) as Hdiv.
    destruct (Z.div_eucl (Z.pos m * 2 ^ 53) (Z.pos m)) as [q r].
    destruct Hdiv as [Hq Hr].
    assert (q = 2 ^ 53) as -> by nia. assert (r = 0) as -> by lia.
    by rewrite new_location_exact. }
  unfold SFdiv. rewrite Hcore. by vm_compute.
Qed.

(** The percentage of the whole is 100, and that of nothing is 0. *)
Lemma percentage_ends (t : nat) :
  0 < Z.of_nat t < 2 ^ 53 ->
  Js.Math_round (PrimFloat.mul (PrimFloat.div (Js.of_nat t) (Js.of_nat t)) 100%float)
    = 100%float ∧
  Js.Math_round (PrimFloat.mul (PrimFloat.div (Js.of_nat 0) (Js.of_nat t)) 100%float)
    = 0%float.
Proof.
  intros Ht. destruct (Prim2SF_of_nat t Ht) as (m & e & Et & He & Hm & Hd). split.
  - assert (Hx : Prim2SF (PrimFloat.mul (PrimFloat.div (Js.of_nat t) (Js.of_nat t)) 100%float)
                 = S754_finite false 7036874417766400 (-46)).
    { rewrite FloatAxioms.mul_spec, FloatAxioms.div_spec. unfold SF64mul, SF64div.
      rewrite Et, SFdiv_self by done. by vm_compute. }
    unfold Js.Math_round. rewrite Hx. by vm_compute.
  - assert (Hx : Prim2SF (PrimFloat.mul (PrimFloat.div (Js.of_nat 0) (Js.of_nat t)) 100%float)
                 = S754_zero false).
    { rewrite FloatAxioms.mul_spec, FloatAxioms.div_spec. unfold SF64mul, SF64div.
      by rewrite Et, Prim2SF_of_nat_0. }
    unfold Js.Math_round. rewrite Hx.
    rewrite <- (SF2Prim_Prim2SF (PrimFloat.mul _ _)), Hx. by vm_compute.
Qed.

End MoreStatsFacts.

(** X12. The statistics do not depend on the order of the bugs: a
    collection and any rearrangement of it have the same counts and the
    same percentage. *)
Theorem computeStats_order_is_irrelevant (bugs bugs' : list Bug) :
  bugs ≡ₚ bugs' -> BugStats.computeStats bugs = BugStats.computeStats bugs'.
Proof.
  intros H. unfold BugStats.computeStats.
  rewrite (Permutation_length H).
  by rewrite !(filter_length_Permutation _ bugs bugs' H).
Qed.

Lemma computeStats_order_is_irrelevant_witness :
  BugStats.computeStats [Sample.bugA; Sample.bugB]
  = BugStats.computeStats [Sample.bugB; Sample.bugA].
Proof.
  apply (computeStats_order_is_irrelevant [Sample.bugA; Sample.bugB]
           [Sample.bugB; Sample.bugA]).
  apply perm_swap.
Defined.

(** X13. The counts of two collections put together are the sums of
    their counts: the total, each status count and each priority
    count. *)
Theorem computeStats_counts_add_up (bugs bugs' : list Bug) :
  BugStats.total (BugStats.computeStats (bugs ++ bugs'))
  = BugStats.total (BugStats.computeStats bugs)
    + BugStats.total (BugStats.computeStats bugs') ∧
  BugStats.open (BugStats.computeStats (bugs ++ bugs'))
  = BugStats.open (BugStats.computeStats bugs)
    + BugStats.open (BugStats.computeStats bugs') ∧
  BugStats.inProgress (BugStats.computeStats (bugs ++ bugs'))
  = BugStats.inProgress (BugStats.computeStats bugs)
    + BugStats.inProgress (BugStats.computeStats bugs') ∧
  BugStats.resolved (BugStats.computeStats (bugs ++ bugs'))
  = BugStats.resolved (BugStats.computeStats bugs)
    + BugStats.resolved (BugStats.computeStats bugs') ∧
  BugStats.closed (BugStats.computeStats (bugs ++ bugs'))
  = BugStats.closed (BugStats.computeStats bugs)
    + BugStats.closed (BugStats.computeStats bugs') ∧
  BugStats.low (BugStats.computeStats (bugs ++ bugs'))
  = BugStats.low (BugStats.computeStats bugs)
    + BugStats.low (BugStats.computeStats bugs') ∧
  BugStats.medium (BugStats.computeStats (bugs ++ bugs'))
  = BugStats.medium (BugStats.computeStats bugs)
    + BugStats.medium (BugStats.computeStats bugs') ∧
  BugStats.high (BugStats.computeStats (bugs ++ bugs'))
  = BugStats.high (BugStats.computeStats bugs)
    + BugStats.high (BugStats.computeStats bugs') ∧
  BugStats.critical (BugStats.computeStats (bugs ++ bugs'))
  = BugStats.critical (BugStats.computeStats bugs)
    + BugStats.critical (BugStats.computeStats bugs').
Proof.
  unfold BugStats.computeStats. cbn [BugStats.total BugStats.open BugStats.inProgress
    BugStats.resolved BugStats.closed BugStats.low BugStats.medium BugStats.high
    BugStats.critical].
  rewrite !List.filter_app, !length_app. by repeat split.
Qed.

(** X14. The ends of the scale are exact: for a collection that is not
    empty (an array, so of fewer than 2^32 bugs), the percentage is 100
    when every bug is resolved and 0 when none is. *)
Theorem resolvedPercentage_all_or_none (bugs : list Bug) :
  bugs ≠ [] -> (Z.of_nat (length bugs) < 2 ^ 32)%Z ->
  ((∀ bug, In bug bugs -> status bug = Resolved) ->
   BugStats.resolvedPercentage (BugStats.computeStats bugs) = 100%float) ∧
  ((∀ bug, In bug bugs -> status bug ≠ Resolved) ->
   BugStats.resolvedPercentage (BugStats.computeStats bugs) = 0%float).
Proof.
  intros Hne Hlen.
  assert (Hpos : (0 <? length bugs)%nat = true).
  { apply Nat.ltb_lt. destruct bugs; [done | simpl; lia]. }
  assert (Ht : (0 < Z.of_nat (length bugs) < 2 ^ 53)%Z).
  { apply Nat.ltb_lt in Hpos. change (2 ^ 32)%Z with 4294967296%Z in Hlen.
    change (2 ^ 53)%Z with 9007199254740992%Z. lia. }
  destruct (percentage_ends (length bugs) Ht) as [Hall Hnone].
  unfold BugStats.computeStats. cbn [BugStats.resolvedPercentage]. rewrite Hpos.
  split; intros H.
  - rewrite filter_length_all; [done |]. intros bug Hbug. by rewrite (H bug Hbug).
  - rewrite filter_length_none; [done |]. intros bug Hbug.
    specialize (H bug Hbug). by destruct (status bug).
Qed.

Lemma resolvedPercentage_all_or_none_witness :
  ((∀ bug, In bug [Sample.bugB; Sample.bugB] -> status bug = Resolved) ->
   BugStats.resolvedPercentage (BugStats.computeStats [Sample.bugB; Sample.bugB])
   = 100%float) ∧
  ((∀ bug, In bug [Sample.bugB; Sample.bugB] -> status bug ≠ Resolved) ->
   BugStats.resolvedPercentage (BugStats.computeStats [Sample.bugB; Sample.bugB])
   = 0%float).
Proof.
  apply (resolvedPercentage_all_or_none [Sample.bugB; Sample.bugB]).
  - discriminate.
  - reflexivity.
Defined.

(** ** More on bugController.js *)

(** X15. Which records there are: [getBugs] changes nothing and lists
    exactly the stored records; [updateBug] never adds or removes a
    record, whatever the id and the patch; [deleteBug] removes the
    record of the ObjectId the id denotes and no other, and none when
    the id denotes no ObjectId. *)
Theorem controller_keeps_track_of_ids {ObjectId : Type} `{Countable ObjectId}
    (castObjectId : string -> option ObjectId)
    (castUpdate : gmap string Js.Value -> Server.QueryError + gmap string Js.Value)
    (applyUpdate : Z -> gmap string Js.Value -> gmap string Js.Value -> gmap string Js.Value)
    (now : Z) (id : string) (patch : gmap string Js.Value)
    (db : gmap ObjectId (gmap string Js.Value)) :
  (Server.getBugs db).1 = db ∧
  (∀ other doc,
     In (other, doc)
        match Server.body (Server.getBugs db).2 with
        | Server.BodyDocs docs => docs
        | _ => []
        end ↔ db !! other = Some doc) ∧
  dom (Server.updateBug castObjectId castUpdate applyUpdate now id patch db).1 = dom db ∧
  dom (Server.deleteBug castObjectId id db).1
    = dom db ∖ match castObjectId id with
               | Some _id => {[ _id ]}
               | None => ∅
               end.
Proof.
  split; [done | split; [| split]].
  - intros other doc. simpl. unfold Server.find.
    by rewrite <- list_elem_of_In, elem_of_map_to_list.
  - rewrite updateBug_collection.
    destruct (castObjectId id) as [_id|]; [| done].
    destruct (castUpdate patch) as [error | update]; [done |].
    destruct (db !! _id) as [doc|] eqn:Hd; [| done].
    rewrite dom_insert_L. apply (elem_of_dom_2 db) in Hd.
    apply subseteq_union_1_L. by apply singleton_subseteq_l.
  - rewrite deleteBug_collection. destruct (castObjectId id) as [_id|].
    + apply dom_delete_L.
    + by rewrite difference_empty_L.
Qed.

(** X16. How the handlers compose: a record updated and then deleted
    leaves the collection as the delete alone does; deletes of two ids
    give the same collection in either order; an update of one id and a
    delete of another give the same collection in either order; and
    after an update that answers with a record [getBugs] lists that
    record. *)
Theorem controller_handlers_compose {ObjectId : Type} `{Countable ObjectId}
    (castObjectId : string -> option ObjectId)
    (castUpdate : gmap string Js.Value -> Server.QueryError + gmap string Js.Value)
    (applyUpdate : Z -> gmap string Js.Value -> gmap string Js.Value -> gmap string Js.Value)
    (now : Z) (id other : string) (patch : gmap string Js.Value)
    (db : gmap ObjectId (gmap string Js.Value)) :
  (Server.deleteBug castObjectId id
     (Server.updateBug castObjectId castUpdate applyUpdate now id patch db).1).1
    = (Server.deleteBug castObjectId id db).1 ∧
  (Server.deleteBug castObjectId id (Server.deleteBug castObjectId other db).1).1
    = (Server.deleteBug castObjectId other (Server.deleteBug castObjectId id db).1).1 ∧
  (other ≠ id ->
   (Server.deleteBug castObjectId other
      (Server.updateBug castObjectId castUpdate applyUpdate now id patch db).1).1
   = (Server.updateBug castObjectId castUpdate applyUpdate now id patch
        (Server.deleteBug castObjectId other db).1).1) ∧
  (∀ response _id doc,
     (Server.updateBug castObjectId castUpdate applyUpdate now id patch db).2
       = Server.Responded response ->
     Server.body response = Server.BodyDoc _id doc ->
     In (_id, doc)
        (Server.find
           (Server.getBugs
              (Server.updateBug castObjectId castUpdate applyUpdate now id patch db).1).1)).
Proof.
  rewrite !deleteBug_collection, !updateBug_collection.
  split; [| split; [| split]].
  - destruct (castObjectId id) as [_id|]; [| done].
    destruct (castUpdate patch) as [error | update]; [done |].
    destruct (db !! _id) as [doc|]; [apply delete_insert_eq | done].
  - destruct (castObjectId id) as [_id|], (castObjectId other) as [o|]; try done.
    apply delete_delete.
  - intros _.
    destruct (castObjectId id) as [_id|], (castObjectId other) as [o|]; try done.
    destruct (castUpdate patch) as [error | update]; [done |].
    destruct (decide (o = _id)) as [-> | Hne].
    + rewrite lookup_delete_eq.
      destruct (db !! _id) as [doc|]; [apply delete_insert_eq | done].
    + rewrite lookup_delete_ne by done.
      destruct (db !! _id) as [doc|]; [by apply delete_insert_ne | done].
  - intros response _id doc. unfold Server.updateBug, Server.findByIdAndUpdate.
    destruct (castObjectId id) as [i|]; [| done].
    destruct (castUpdate patch) as [error | update]; [done |].
    destruct (db !! i) as [d|]; simpl.
    + intros [= <-]. simpl. intros [= <- <-].
      unfold Server.find. apply list_elem_of_In, elem_of_map_to_list, lookup_insert_eq.
    + by intros [= <-].
Qed.

(** X18. What [createBug] stores: it touches no record but the one of
    the new document's id; when it answers, the answer is 201 with the
    new document, the schema has accepted the document, its id was not
    taken, the collection is the old one with that document added,
    [getBugs] lists the document, and deleting it gives the old
    collection back; when the save is rejected the collection is as it
    was. *)
Theorem createBug_stores_one_record {ObjectId : Type} `{Countable ObjectId}
    (castObjectId : string -> option ObjectId)
    (schemaErrors : gmap string Js.Value -> list string)
    (construct : Z -> gmap string Js.Value -> gmap string Js.Value)
    (now : Z) (_id : ObjectId) (id : string) (reqBody : gmap string Js.Value)
    (db : gmap ObjectId (gmap string Js.Value)) :
  (∀ other, other ≠ _id ->
     (Server.createBug schemaErrors construct now _id reqBody db).1 !! other
     = db !! other) ∧
  (∀ response,
     (Server.createBug schemaErrors construct now _id reqBody db).2
       = Server.Responded response ->
     response = Server.mkResponse 201 (Server.BodyDoc _id (construct now reqBody)) ∧
     schemaErrors (construct now reqBody) = [] ∧
     db !! _id = None ∧
     (Server.createBug schemaErrors construct now _id reqBody db).1
       = <[_id := construct now reqBody]> db ∧
     In (_id, construct now reqBody)
        (Server.find
           (Server.getBugs
              (Server.createBug schemaErrors construct now _id reqBody db).1).1) ∧
     (castObjectId id = Some _id ->
      (Server.deleteBug castObjectId id
         (Server.createBug schemaErrors construct now _id reqBody db).1).1 = db)) ∧
  (∀ error,
     (Server.createBug schemaErrors construct now _id reqBody db).2
       = Server.Rejected error ->
     (Server.createBug schemaErrors construct now _id reqBody db).1 = db).
Proof.
  destruct (createBug_cases schemaErrors construct now _id reqBody db)
    as [(Hs & Hd & ->) | [error ->]]; simpl.
  - split; [| split; [| done]].
    + intros other Hne. by apply lookup_insert_ne.
    + intros response [= <-]. repeat split; try done.
      * unfold Server.find. apply list_elem_of_In, elem_of_map_to_list, lookup_insert_eq.
      * intros Hc. rewrite deleteBug_collection, Hc. by apply delete_insert_id.
  - by repeat split.
Qed.

(** ** The life of the error boundary *)

Section ErrorBoundaryLifeFacts.
Import ErrorBoundary ErrorBoundaryLife.

Lemma run_app (events events' : list Event) (st : State) :
  run (events ++ events') st = run events' (run events st).
Proof. unfold run. apply fold_left_app. Qed.

Lemma step_keeps_error (ev : Event) (st : State) :
  (hasError st = true -> is_Some (error st)) ->
  (is_Some (errorInfo st) -> is_Some (error st)) ->
  (hasError (step ev st) = true -> is_Some (error (step ev st))) ∧
  (is_Some (errorInfo (step ev st)) -> is_Some (error (step ev st))).
Proof.
  intros H1 H2. destruct ev as [e | e info |]; simpl.
  - split; intros _; by eexists.
  - split; intros _; by eexists.
  - split; [done | by intros [? [=]]].
Qed.

End ErrorBoundaryLifeFacts.

(** X17. Through any sequence of errors derived, errors reported and
    retries, from the initial state: while [hasError] is set there is
    an error in the state, and a component stack is never there without
    one, so in development the card always shows the details of an
    error; the card shown outside development is the same whatever was
    caught; a retry at the end leads back to the initial state, and an
    error derived and reported at the end is the one the state holds. *)
Theorem errorBoundary_life
    (events : list ErrorBoundaryLife.Event)
    (e : ErrorBoundary.Error) (info : ErrorBoundary.ErrorInfo) :
  (ErrorBoundary.hasError (ErrorBoundaryLife.run events ErrorBoundary.initialState) = true ->
   is_Some (ErrorBoundary.error (ErrorBoundaryLife.run events ErrorBoundary.initialState)) ∧
   ErrorBoundary.errorDetails true
     (ErrorBoundaryLife.run events ErrorBoundary.initialState) ≠ ErrorBoundary.RUndefined) ∧
  (is_Some (ErrorBoundary.errorInfo
              (ErrorBoundaryLife.run events ErrorBoundary.initialState)) ->
   is_Some (ErrorBoundary.error (ErrorBoundaryLife.run events ErrorBoundary.initialState))) ∧
  ErrorBoundary.errorCard false (ErrorBoundaryLife.run events ErrorBoundary.initialState)
    = ErrorBoundary.errorCard false ErrorBoundary.initialState ∧
  ErrorBoundaryLife.run (events ++ [ErrorBoundaryLife.Retry]) ErrorBoundary.initialState
    = ErrorBoundary.initialState ∧
  ErrorBoundaryLife.run
    (events ++ [ErrorBoundaryLife.Derive e; ErrorBoundaryLife.DidCatch e info])
    ErrorBoundary.initialState
    = ErrorBoundary.mkState true (Some e) (Some info).
Proof.
  assert (Hinv : ∀ st,
    (ErrorBoundary.hasError st = true -> is_Some (ErrorBoundary.error st)) ->
    (is_Some (ErrorBoundary.errorInfo st) -> is_Some (ErrorBoundary.error st)) ->
    (ErrorBoundary.hasError (ErrorBoundaryLife.run events st) = true ->
     is_Some (ErrorBoundary.error (ErrorBoundaryLife.run events st))) ∧
    (is_Some (ErrorBoundary.errorInfo (ErrorBoundaryLife.run events st)) ->
     is_Some (ErrorBoundary.error (ErrorBoundaryLife.run events st)))).
  { induction events as [|ev events IH]; intros st H1 H2; [done |].
    change (ErrorBoundaryLife.run (ev :: events) st)
      with (ErrorBoundaryLife.run events (ErrorBoundaryLife.step ev st)).
    destruct (step_keeps_error ev st H1 H2) as [H1' H2']. by apply IH. }
  destruct (Hinv ErrorBoundary.initialState) as [H1 H2]; [done | by intros [? [=]] |].
  split; [| split; [done | split; [done | split]]].
  - intros H. split; [by apply H1 |].
    destruct (H1 H) as [err Herr]. unfold ErrorBoundary.errorDetails. by rewrite Herr.
  - by rewrite run_app.
  - by rewrite run_app.
Qed.
